(** * Drive-time search over an H3 hexagon grid

    Shallow embedding of [monkeygod/friction_h3_traversal.py]:
    the cost graph, the priority frontier, Dijkstra's search, the path
    reconstruction and the travel-time query with its one-slot cache.

    Conventions.
    - H3 cell identifiers are Python [str]: [string].
    - Traversal costs, priorities and cumulative costs are numbers in
      minutes; they are taken in [Z].
    - Python dictionaries keyed by cells are [gmap string _]; the cost
      profile built by [reconstruct_path], whose order matters, is an
      insertion-ordered association list.
    - The H3 library ([h3.hex_range], [h3.geo_to_h3]) is external: its
      functions are section variables.
    - [while] loops take fuel; running out of it is the outcome
      [OutOfFuel], distinct from returning and from raising. *)

From Stdlib Require Import ZArith List Lia.
From stdpp Require Import gmap strings list fin_maps.

Local Open Scope Z_scope.

(** ** Outcomes of a call *)

Inductive exn := AssertionError | KeyError | IndexError | FileNotFoundError.

Inductive outcome (A : Type) :=
| Returned (a : A)
| Raised (e : exn)
| OutOfFuel.
Arguments Returned {A} a.
Arguments Raised {A} e.
Arguments OutOfFuel {A}.

(** Python truthiness of an optional string and of an optional number:
    [None], the empty string and [0] are falsy. *)
Definition truthy_str (o : option string) : bool :=
  match o with
  | Some s => negb (String.eqb s "")
  | None => false
  end.

Definition truthy_num (o : option Z) : bool :=
  match o with
  | Some z => negb (z =? 0)
  | None => false
  end.

(** ** class H3CostGraph *)

(** [costs] is the result of [read_csv(...).to_dict("index")]:
    cell -> (column name -> value).  [edges] is an empty dictionary the
    code never reads. *)
Record H3CostGraph := mkGraph {
  edges : gmap string (list string);
  costs : gmap string (gmap string Z)
}.

(** [self.costs.get(current, {}).get("value", 20)]: the argument [next]
    is not used. *)
Definition cost (g : H3CostGraph) (current next : string) : Z :=
  default 20 (default ∅ (costs g !! current) !! "value"%string).

(** The cost of a cell in the words of the specification: "the table's
    value for [cell] or the default fallback".  The facts below say
    which cell's cost a relaxation adds. *)
Definition table_cost (g : H3CostGraph) (cell : string) : Z :=
  match costs g !! cell with
  | Some r => default 20 (r !! "value"%string)
  | None => 20
  end.

(** ** class PriorityQueue, over [heapq]

    [heapq] is the standard library's binary heap.  It is modelled by
    its contract: the list holds the multiset of entries, [heappush]
    adds one, [heappop] removes a least entry for the order of Python
    tuples [(priority, item)]: by priority first, by item next. *)

Definition entry : Type := Z * string.

Definition entry_le (a b : entry) : bool :=
  (a.1 <? b.1) || ((a.1 =? b.1) && String.leb a.2 b.2).

Fixpoint heap_min (a : entry) (l : list entry) : entry :=
  match l with
  | [] => a
  | b :: l' => heap_min (if entry_le a b then a else b) l'
  end.

Fixpoint remove_first (a : entry) (l : list entry) : list entry :=
  match l with
  | [] => []
  | b :: l' => if decide (a = b) then l' else b :: remove_first a l'
  end.

Definition heappush (h : list entry) (e : entry) : list entry := e :: h.

Definition heappop (h : list entry) : option (entry * list entry) :=
  match h with
  | [] => None
  | a :: l => let m := heap_min a l in Some (m, remove_first m h)
  end.

Record PriorityQueue := PQ { elements : list entry }.

Definition pq_new : PriorityQueue := PQ [].

Definition empty (q : PriorityQueue) : bool :=
  match elements q with [] => true | _ => false end.

Definition put (q : PriorityQueue) (item : string) (priority : Z) : PriorityQueue :=
  PQ (heappush (elements q) (priority, item)).

(** [heapq.heappop(self.elements)[1]], with the queue left behind. *)
Definition get (q : PriorityQueue) : option (string * PriorityQueue) :=
  match heappop (elements q) with
  | Some (e, h) => Some (e.2, PQ h)
  | None => None
  end.

(** ** dijkstra_search

    The function is a machine over configurations: the three mutable
    objects and the program point, either the head of the [while] loop
    or inside the [for] loop over the neighbours of [current] with the
    neighbours still to visit. *)

Inductive pc :=
| AtWhile
| InFor (current : string) (todo : list string).

Record config := Config {
  frontier : PriorityQueue;
  came_from : gmap string (option string);
  cost_so_far : gmap string Z;
  at_pc : pc
}.

Definition maps : Type := gmap string (option string) * gmap string Z.

Inductive step_result :=
| Next (c : config)
| Halt (r : maps)
| Raise (e : exn).

(** [next not in cost_so_far or new_cost < cost_so_far[next]] *)
Definition improves (cost_so_far : gmap string Z) (next : string) (new_cost : Z) : bool :=
  match cost_so_far !! next with
  | None => true
  | Some old => new_cost <? old
  end.

(** [distance_goal is not None and priority >= distance_goal] *)
Definition pruned (distance_goal : option Z) (priority : Z) : bool :=
  match distance_goal with
  | Some d => d <=? priority
  | None => false
  end.

(** [hex_goal is not None and current == hex_goal] *)
Definition at_goal (hex_goal : option string) (current : string) : bool :=
  match hex_goal with
  | Some h => bool_decide (current = h)
  | None => false
  end.

(** State before the loop: lines 123-128. *)
Definition init_config (start : string) : config :=
  Config (put pq_new start 0) {[ start := None ]} {[ start := 0 ]} AtWhile.

Section Search.

(** [h3.hex_range h k], iterated in the order Python iterates the set. *)
Variable hex_range : string -> nat -> list string.

Definition neighbors (g : H3CostGraph) (h : string) : list string :=
  hex_range h 1.

(** One iteration of the [for] body on [next] (lines 137-144). *)
Definition relax (g : H3CostGraph) (distance_goal : option Z)
    (current next : string) (todo : list string) (c : config) : step_result :=
  match cost_so_far c !! current with
  | None => Raise KeyError
  | Some cur_cost =>
      let new_cost := cur_cost + cost g current next in
      if improves (cost_so_far c) next new_cost then
        let cs := <[ next := new_cost ]> (cost_so_far c) in
        let cf := <[ next := Some current ]> (came_from c) in
        let priority := new_cost in
        if pruned distance_goal priority
        then Next (Config (frontier c) cf cs (InFor current todo))
        else Next (Config (put (frontier c) next priority) cf cs (InFor current todo))
      else Next (Config (frontier c) (came_from c) (cost_so_far c) (InFor current todo))
  end.

(** One step of the loops (lines 130-146). *)
Definition step (g : H3CostGraph) (hex_goal : option string)
    (distance_goal : option Z) (c : config) : step_result :=
  match at_pc c with
  | AtWhile =>
      if empty (frontier c) then Halt (came_from c, cost_so_far c)
      else match get (frontier c) with
           | None => Raise IndexError
           | Some (current, q) =>
               if at_goal hex_goal current
               then Halt (came_from c, cost_so_far c)
               else Next (Config q (came_from c) (cost_so_far c)
                                 (InFor current (neighbors g current)))
           end
  | InFor current [] =>
      Next (Config (frontier c) (came_from c) (cost_so_far c) AtWhile)
  | InFor current (next :: todo) =>
      relax g distance_goal current next todo c
  end.

Fixpoint run (fuel : nat) (g : H3CostGraph) (hex_goal : option string)
    (distance_goal : option Z) (c : config) : outcome maps :=
  match fuel with
  | O => OutOfFuel
  | S fuel' =>
      match step g hex_goal distance_goal c with
      | Next c' => run fuel' g hex_goal distance_goal c'
      | Halt r => Returned r
      | Raise e => Raised e
      end
  end.

(** [assert hex_goal or distance_goal], then the loop. *)
Definition dijkstra_search (fuel : nat) (g : H3CostGraph) (start : string)
    (hex_goal : option string) (distance_goal : option Z) : outcome maps :=
  if truthy_str hex_goal || truthy_num distance_goal
  then run fuel g hex_goal distance_goal (init_config start)
  else Raised AssertionError.

(** The configuration after [n] steps, while the machine keeps going. *)
Fixpoint steps (n : nat) (g : H3CostGraph) (hex_goal : option string)
    (distance_goal : option Z) (c : config) : option config :=
  match n with
  | O => Some c
  | S n' =>
      match step g hex_goal distance_goal c with
      | Next c' => steps n' g hex_goal distance_goal c'
      | _ => None
      end
  end.

(** A configuration the search from [start] goes through. *)
Definition visits (g : H3CostGraph) (start : string) (hex_goal : option string)
    (distance_goal : option Z) (c : config) : Prop :=
  exists n, steps n g hex_goal distance_goal (init_config start) = Some c.

(** [x] is popped from the frontier by the search from [start]. *)
Definition popped (g : H3CostGraph) (start : string) (hex_goal : option string)
    (distance_goal : option Z) (x : string) : Prop :=
  exists c q, visits g start hex_goal distance_goal c /\
              at_pc c = AtWhile /\ get (frontier c) = Some (x, q).

(** Paths of the grid and their cumulative cost: leaving [x] for any
    of its neighbours is charged [cost g x _]. *)
Inductive path (g : H3CostGraph) (start : string) : string -> Z -> Prop :=
| path_nil : path g start start 0
| path_snoc x y w :
    path g start x w -> y ∈ neighbors g x -> path g start y (w + cost g x y).

Definition least_cost (g : H3CostGraph) (start x : string) (w : Z) : Prop :=
  path g start x w /\ forall w', path g start x w' -> w <= w'.

End Search.

(** ** reconstruct_path *)

(** The cost profile is a Python [dict]: keys keep their insertion
    order, and assigning to a key already there keeps its place. *)
Fixpoint dict_set (d : list (string * Z)) (k : string) (v : Z) : list (string * Z) :=
  match d with
  | [] => [(k, v)]
  | (k', v') :: d' =>
      if decide (k' = k) then (k, v) :: d' else (k', v') :: dict_set d' k v
  end.

Fixpoint dict_get (d : list (string * Z)) (k : string) : option Z :=
  match d with
  | [] => None
  | (k', v') :: d' => if decide (k' = k) then Some v' else dict_get d' k
  end.

(** The [while current != start] loop (lines 164-167).  A predecessor
    that is Python's [None] makes the next iteration look [None] up in
    [came_from], whose keys are cells: [KeyError]. *)
Fixpoint reconstruct_loop (fuel : nat) (came_from : gmap string (option string))
    (cost_so_far : gmap string Z) (start current : string)
    (path : list (string * Z)) : outcome (list (string * Z)) :=
  match fuel with
  | O => OutOfFuel
  | S fuel' =>
      if decide (current = start) then Returned (dict_set path start 0)
      else
        let cost := default 0 (cost_so_far !! current) in
        let path := dict_set path current cost in
        match came_from !! current with
        | None => Raised KeyError
        | Some None => Raised KeyError
        | Some (Some prev) =>
            reconstruct_loop fuel' came_from cost_so_far start prev path
        end
  end.

Definition reconstruct_path (fuel : nat) (came_from : gmap string (option string))
    (cost_so_far : gmap string Z) (start goal : string) : outcome (list (string * Z)) :=
  reconstruct_loop fuel came_from cost_so_far start goal [].

(** ** calculate_travel_time *)

(** A row of the tables written to disk: columns [hex], [cost], [origin]. *)
Record row := Row { hex : string; cost_col : Z; origin : string }.

(** [DataFrame.from_dict(cost_so_far, orient="index")] with the
    [origin] column added.  The order of the rows of the surface is the
    order of the map's listing, not Python's insertion order. *)
Definition surface_frame (cost_so_far : gmap string Z) (start_hex : string) : list row :=
  (fun kv => Row kv.1 kv.2 start_hex) <$> map_to_list cost_so_far.

Definition path_frame (path : list (string * Z)) (start_hex : string) : list row :=
  (fun kv => Row kv.1 kv.2 start_hex) <$> path.

(** [list(iso_df[iso_df["hex"] == hex_goal]["cost"])] *)
Definition costs_of (iso_df : list row) (hex_goal : string) : list Z :=
  cost_col <$> filter (fun r => hex r = hex_goal) iso_df.

(** What the function reads and writes outside its arguments: the
    module-level [temp_df_cache], the files of [DATA_DIR], and a count
    of the calls made to [dijkstra_search], kept for the statements
    about recomputation (the code has no such counter). *)
Record world := World {
  temp_df_cache : gmap string (list row);
  files : gmap string (list row);
  searches : nat
}.

Section Query.

Variable hex_range : string -> nat -> list string.

(** Coordinates, and [h3.geo_to_h3 lat lon res]. *)
Variable coord : Type.
Variable geo_to_h3 : coord -> coord -> Z -> string.
Variable DATA_DIR : string.

Definition iso_file (start_hex : string) : string :=
  DATA_DIR +:+ "/hex_isochrone_" +:+ start_hex +:+ ".gz".

Definition lcp_file (start_hex : string) : string :=
  DATA_DIR +:+ "/hex_path_" +:+ start_hex +:+ ".gz".

(** The module's graph [g] is an argument; [distance_goal] and
    [hex_res] have the defaults 3000 and 6 at the call sites. *)
Definition calculate_travel_time (fuel : nat) (g : H3CostGraph) (w : world)
    (start hex_goal : coord * coord) (distance_goal : Z) (hex_res : Z)
    : outcome Z * world :=
  let start_hex := geo_to_h3 start.1 start.2 hex_res in
  let hex_goal := geo_to_h3 hex_goal.1 hex_goal.2 hex_res in
  let iso_path := iso_file start_hex in
  let lcp_path := lcp_file start_hex in
  let w := World (temp_df_cache w) (files w) (S (searches w)) in
  match dijkstra_search hex_range fuel g start_hex (Some hex_goal) None with
  | OutOfFuel => (OutOfFuel, w)
  | Raised e => (Raised e, w)
  | Returned (came_from, cost_so_far) =>
      let df := surface_frame cost_so_far start_hex in
      let w := World {[ iso_path := df ]} (<[ iso_path := df ]> (files w)) (searches w) in
      match reconstruct_path fuel came_from cost_so_far start_hex hex_goal with
      | OutOfFuel => (OutOfFuel, w)
      | Raised e => (Raised e, w)
      | Returned path =>
          let path_df := path_frame path start_hex in
          let w := World (temp_df_cache w) (<[ lcp_path := path_df ]> (files w)) (searches w) in
          let read :=
            match temp_df_cache w !! iso_path with
            | Some iso_df => Returned (iso_df, w)
            | None =>
                match files w !! iso_path with
                | Some iso_df =>
                    Returned (iso_df, World {[ iso_path := iso_df ]} (files w) (searches w))
                | None => Raised FileNotFoundError
                end
            end in
          match read with
          | Returned (iso_df, w) =>
              match costs_of iso_df hex_goal with
              | cost_to_dest :: _ => (Returned cost_to_dest, w)
              | [] => (Returned distance_goal, w)
              end
          | Raised e => (Raised e, w)
          | OutOfFuel => (OutOfFuel, w)
          end
      end
  end.

End Query.

(** ** Properties the facts are stated with *)

(** The reading of the specification: a search is accepted only when
    exactly one of the two goals is given. *)
Definition accepted_only_with_exactly_one (hex_range : string -> nat -> list string) : Prop :=
  forall fuel g start hex_goal distance_goal,
    dijkstra_search hex_range fuel g start hex_goal distance_goal <> Raised AssertionError ->
    (is_Some hex_goal /\ distance_goal = None) \/ (hex_goal = None /\ is_Some distance_goal).

(** The reading of the specification: a relaxation into [next] adds the
    cost of the entered cell [next]. *)
Definition charges_entered_cell : Prop :=
  forall g distance_goal current next todo c c' v,
    cost_so_far c !! current = Some v ->
    improves (cost_so_far c) next (v + cost g current next) = true ->
    relax g distance_goal current next todo c = Next c' ->
    cost_so_far c' !! next = Some (v + table_cost g next).

(** The two maps of a configuration have the same keys, [start] among
    them. *)
Definition same_keys (start : string) (c : config) : Prop :=
  dom (came_from c) = dom (cost_so_far c) /\ start ∈ dom (cost_so_far c).


(** The reading of the specification, for the neighbour recorded
    without being enqueued: a relaxation that succeeds with a candidate
    at or above the ceiling [C] has its cost and predecessor in the
    returned maps. *)
Definition pruned_record_kept_to_return (hex_range : string -> nat -> list string) : Prop :=
  forall fuel g start hex_goal C c current next todo v cf cs,
    visits hex_range g start hex_goal (Some C) c ->
    at_pc c = InFor current (next :: todo) ->
    cost_so_far c !! current = Some v ->
    improves (cost_so_far c) next (v + cost g current next) = true ->
    C <= v + cost g current next ->
    dijkstra_search hex_range fuel g start hex_goal (Some C) = Returned (cf, cs) ->
    cs !! next = Some (v + cost g current next) /\ cf !! next = Some (Some current).

(** The reading of the specification: whatever the costs, every cell
    with a cost in the maps of a search has a profile reconstructed,
    ending at [start] with cost 0 and giving the cell its cost. *)
Definition every_recorded_cell_reconstructs (hex_range : string -> nat -> list string) : Prop :=
  forall fuel g start hex_goal distance_goal cf cs x v,
    dijkstra_search hex_range fuel g start hex_goal distance_goal = Returned (cf, cs) ->
    cs !! x = Some v ->
    exists fuel' p, reconstruct_path fuel' cf cs start x = Returned p
      /\ last p = Some (start, 0) /\ dict_get p x = Some v.

(** Every entry of the frontier is below the ceiling, or is the seed. *)
Definition below_ceiling (C : Z) (start : string) (c : config) : Prop :=
  forall e, e ∈ elements (frontier c) -> e.1 < C \/ e = (0, start).

(** No cost of the table is negative (the default 20 is not). *)
Definition nonneg_costs (g : H3CostGraph) : Prop :=
  map_Forall (fun _ r => 0 <= default 20 (r !! "value"%string)) (costs g).


(** Every cost of the graph is at least [cmin]: the default 20 and the
    values of the table. *)
Definition costs_at_least (cmin : Z) (g : H3CostGraph) : Prop :=
  cmin <= 20 /\ map_Forall (fun _ r => cmin <= default 20 (r !! "value"%string)) (costs g).

(** Predecessor links lead from [x] back to [start] through cells
    whose recorded costs do not go up. *)
Inductive chain (cf : gmap string (option string)) (cs : gmap string Z)
    (start : string) : string -> Prop :=
| chain_start : chain cf cs start start
| chain_step x u vx vu :
    x <> start -> cf !! x = Some (Some u) ->
    cs !! x = Some vx -> cs !! u = Some vu -> vu <= vx ->
    chain cf cs start u -> chain cf cs start x.

(** How much the recorded cost of a cell can still go down below the
    ceiling: one more than the ceiling for a cell without a cost. *)
Definition pot (K : nat) (cs : gmap string Z) (x : string) : nat :=
  match cs !! x with
  | None => S K
  | Some v => Nat.min (Z.to_nat v) K
  end.

Definition potential (K : nat) (cs : gmap string Z) (R : list string) : nat :=
  sum_list_with (pot K cs) R.

Section Invariants.

Variable hex_range : string -> nat -> list string.
Variable g : H3CostGraph.
Variable start : string.
Variable distance_goal : option Z.

(** The neighbours of [x] have been relaxed from the cost [v] of [x],
  or remain to be visited by the [for] loop running on [x]. *)
Definition done_with (c : config) (x : string) (v : Z) : Prop :=
forall y, y ∈ neighbors hex_range g x ->
  (exists w, cost_so_far c !! y = Some w /\ w <= v + cost g x y)
  \/ (exists todo, at_pc c = InFor x todo /\ y ∈ todo).

(** What holds of every configuration of a search on a graph without
  negative costs: [start] costs 0; a recorded cost is the cost of a
  path; the cells of the frontier have a cost that is at most their
  priority; the priorities are below the ceiling, the seed apart; a
  cell with a cost is on the frontier at that cost, or is pruned, or
  has relaxed its neighbours; the [for] loop runs on neighbours. *)
Record search_inv (c : config) : Prop := {
inv_start : cost_so_far c !! start = Some 0;
inv_path : forall x v, cost_so_far c !! x = Some v -> path hex_range g start x v;
inv_frontier : forall e, e ∈ elements (frontier c) ->
    exists v, cost_so_far c !! e.2 = Some v /\ v <= e.1;
inv_ceiling : forall e, e ∈ elements (frontier c) ->
    pruned distance_goal e.1 = false \/ e = (0, start);
inv_closed : forall x v, cost_so_far c !! x = Some v ->
    (v, x) ∈ elements (frontier c) \/ pruned distance_goal v = true \/ done_with c x v;
inv_todo : forall x todo y, at_pc c = InFor x todo -> y ∈ todo -> y ∈ neighbors hex_range g x
}.

(** Every cell with a cost has a chain of predecessors to [start]. *)
Definition chained (c : config) : Prop :=
search_inv c /\
forall x v, cost_so_far c !! x = Some v ->
  chain (came_from c) (cost_so_far c) start x.

(** The cells within [k] edges of [start]. *)
Fixpoint ball (k : nat) : list string :=
match k with
| O => [start]
| S k' => ball k' ++ flat_map (neighbors hex_range g) (ball k')
end.

End Invariants.

Section TerminationMeasure.

Variable hex_range : string -> nat -> list string.
Variable g : H3CostGraph.
Variable start : string.
Variable C : Z.
Variable cmin : Z.

(** What goes down as the search under the ceiling [C] runs: twice the
  potential of the cells within [C] edges of [start], plus the size
  of the frontier. *)
Definition measure (c : config) : nat :=
(2 * potential (Z.to_nat C) (cost_so_far c) (ball hex_range g start (Z.to_nat C))
 + length (elements (frontier c)))%nat.

(** With costs of at least [cmin], a recorded cost pays for the edges
  walked; the cell the [for] loop runs on has a cost. *)
Record term_inv (c : config) : Prop := {
ti_search : search_inv hex_range g start (Some C) c;
ti_depth : forall x v, cost_so_far c !! x = Some v ->
    exists d : nat, x ∈ ball hex_range g start d /\ cmin * Z.of_nat d <= v;
ti_current : forall x todo, at_pc c = InFor x todo -> is_Some (cost_so_far c !! x)
}.

End TerminationMeasure.

(** ** Small grids used to run the definitions *)

Module Toy.

(** Four cells in a row; like [h3.hex_range], a cell's range holds
    the cell itself. *)
Definition line (h : string) (k : nat) : list string :=
  if String.eqb h "a" then ["a"; "b"]
  else if String.eqb h "b" then ["b"; "a"; "c"]
  else if String.eqb h "c" then ["c"; "b"; "d"]
  else if String.eqb h "d" then ["d"; "c"]
  else [h].

(** A grid where no cell has a neighbour but itself. *)
Definition isolated (h : string) (k : nat) : list string := [h].

Definition value_row (v : Z) : gmap string Z := {[ "value" := v ]}.

(** [a] costs 5, [b] 7, [c] 1; [d] is missing from the table. *)
Definition g : H3CostGraph :=
  mkGraph ∅ (<[ "a" := value_row 5 ]> (<[ "b" := value_row 7 ]> {[ "c" := value_row 1 ]})).

(** Every listed cell costs 1. *)
Definition g1 : H3CostGraph :=
  mkGraph ∅ (<[ "a" := value_row 1 ]> (<[ "b" := value_row 1 ]> {[ "c" := value_row 1 ]})).

(** Snapping of the toy coordinates: the latitude names the cell. *)
Definition snap (lat lon : string) (res : Z) : string := lat.

Definition w0 : world := World ∅ ∅ 0.

(** The maps of the search from [a] to [d] on [line] with [g]. *)
Definition cf_line : gmap string (option string) :=
  <[ "a" := None ]> (<[ "b" := Some "a" ]> (<[ "c" := Some "b" ]> {[ "d" := Some "c" ]})).

Definition cs_line : gmap string Z :=
  <[ "a" := 0 ]> (<[ "b" := 5 ]> (<[ "c" := 12 ]> {[ "d" := 13 ]})).

End Toy.

(** ** Further invariants of the search *)

Section Links.

Variable hex_range : string -> nat -> list string.
Variable g : H3CostGraph.
Variable start : string.
Variable distance_goal : option Z.

(** What holds of every configuration of a search, whatever the costs:
    the cells of the frontier and the cell the [for] loop runs on have
    a cost, one that the ceiling does not prune unless the cell is
    [start]; a recorded cost is the cost of a path; a predecessor is
    a cell of which the cell is a neighbour, with a cost that pays for
    the edge and that the ceiling does not prune unless it is [start];
    only [start] can have Python's [None] for predecessor. *)
Record link_inv (c : config) : Prop := {
  li_frontier : forall e, e ∈ elements (frontier c) ->
      exists v, cost_so_far c !! e.2 = Some v /\ v <= e.1
        /\ (pruned distance_goal v = false \/ e.2 = start);
  li_current : forall x todo, at_pc c = InFor x todo ->
      (exists v, cost_so_far c !! x = Some v
         /\ (pruned distance_goal v = false \/ x = start))
      /\ forall y, y ∈ todo -> y ∈ neighbors hex_range g x;
  li_path : forall x v, cost_so_far c !! x = Some v -> path hex_range g start x v;
  li_link : forall x u, came_from c !! x = Some (Some u) ->
      x ∈ neighbors hex_range g u
      /\ exists vx vu, cost_so_far c !! x = Some vx /\ cost_so_far c !! u = Some vu
           /\ vu + cost g u x <= vx
           /\ (pruned distance_goal vu = false \/ u = start);
  li_none : forall x, came_from c !! x = Some None -> x = start
}.

End Links.

(** The predecessor walk of [reconstruct_path] from [x] never leaves
    [S]: no cell of [S] is [start] and each has a predecessor in [S]. *)
Definition closed_walk (cf : gmap string (option string)) (start : string)
    (S : string -> Prop) : Prop :=
  forall x, S x -> x <> start /\ exists u, cf !! x = Some (Some u) /\ S u.

(** A profile under construction by [reconstruct_path]: distinct
    cells, none of them [start], each with [cost_so_far.get(cell, 0)]. *)
Definition good_profile (cs : gmap string Z) (start : string)
    (path : list (string * Z)) : Prop :=
  NoDup path.*1 /\ forall k v, (k, v) ∈ path -> k <> start /\ v = default 0 (cs !! k).

(** ** More small inputs *)

Module Toy2.

(** The maps of the search from [a] on [Toy.line] with [Toy.g] under
    the ceiling 6. *)
Definition cf_iso : gmap string (option string) :=
  <[ "a" := None ]> (<[ "b" := Some "a" ]> {[ "c" := Some "b" ]}).

Definition cs_iso : gmap string Z :=
  <[ "a" := 0 ]> (<[ "b" := 5 ]> {[ "c" := 12 ]}).

(** Predecessor links that go round between [b] and [c]. *)
Definition cf_cycle : gmap string (option string) :=
  <[ "b" := Some "c" ]> {[ "c" := Some "b" ]}.

Definition on_cycle (x : string) : Prop := x = "b"%string \/ x = "c"%string.

Definition queue : PriorityQueue := PQ [(3, "b"%string); (1, "a"%string)].

End Toy2.

(** ** Two grids that part the readings from the code *)

Module Toy3.

(** From [s] two ways lead to [n]: through [a], dear, and through
    [b], cheap. *)
Definition fork (h : string) (k : nat) : list string :=
  if String.eqb h "s" then ["s"; "a"; "b"]
  else if String.eqb h "a" then ["a"; "n"]
  else if String.eqb h "b" then ["b"; "n"]
  else [h].

(** [s] costs 1, [a] 10, [b] 2. *)
Definition g_fork : H3CostGraph :=
  mkGraph ∅ (<[ "s" := Toy.value_row 1 ]>
               (<[ "a" := Toy.value_row 10 ]> {[ "b" := Toy.value_row 2 ]})).

(** The search from [s] under the ceiling 5, about to relax [n] from
    [a]: seven steps in. *)
Definition c_fork : config :=
  Config (PQ [(1, "b"%string)])
         (<[ "s" := None ]> (<[ "a" := Some "s" ]> {[ "b" := Some "s" ]}))
         (<[ "s" := 0 ]> (<[ "a" := 1 ]> {[ "b" := 1 ]}))
         (InFor "a" ["n"%string]).

(** The maps that search returns. *)
Definition cf_fork : gmap string (option string) :=
  <[ "s" := None ]> (<[ "a" := Some "s" ]> (<[ "b" := Some "s" ]> {[ "n" := Some "b" ]})).

Definition cs_fork : gmap string Z :=
  <[ "s" := 0 ]> (<[ "a" := 1 ]> (<[ "b" := 1 ]> {[ "n" := 3 ]})).

(** [s], then [a], then [g]; each cell is in its own range. *)
Definition loop (h : string) (k : nat) : list string :=
  if String.eqb h "s" then ["s"; "a"]
  else if String.eqb h "a" then ["a"; "g"]
  else [h].

(** [s] costs 1 and [a] costs -1. *)
Definition g_neg : H3CostGraph :=
  mkGraph ∅ (<[ "s" := Toy.value_row 1 ]> {[ "a" := Toy.value_row (-1) ]}).

(** The maps the search from [s] to [g] returns: [a] is its own
    predecessor. *)
Definition cf_neg : gmap string (option string) :=
  <[ "s" := None ]> (<[ "a" := Some "a" ]> {[ "g" := Some "a" ]}).

Definition cs_neg : gmap string Z :=
  <[ "s" := 0 ]> (<[ "a" := 0 ]> {[ "g" := -1 ]}).

End Toy3.

(** * Facts *)

(** ** The frontier *)

Lemma heap_min_elem a l : heap_min a l = a \/ heap_min a l ∈ l.
Proof.
  revert a. induction l as [|b l IH]; intros a; simpl; [by left|].
  destruct (IH (if entry_le a b then a else b)) as [H|H].
  - rewrite H. destruct (entry_le a b); [by left | right; left].
  - right. by right.
Qed.

Lemma entry_le_false a b : entry_le a b = false -> b.1 <= a.1.
Proof.
  unfold entry_le. intros H.
  apply orb_false_iff in H as [H _]. lia.
Qed.

Lemma entry_le_true a b : entry_le a b = true -> a.1 <= b.1.
Proof.
  unfold entry_le. intros H.
  apply orb_true_iff in H as [H|H]; [lia|].
  apply andb_true_iff in H as [H _]. lia.
Qed.

Lemma heap_min_least a l :
  (heap_min a l).1 <= a.1 /\ forall b, b ∈ l -> (heap_min a l).1 <= b.1.
Proof.
  revert a. induction l as [|b l IH]; intros a; simpl.
  - split; [lia|]. intros b Hb. inversion Hb.
  - destruct (IH (if entry_le a b then a else b)) as [H1 H2].
    destruct (entry_le a b) eqn:E.
    + apply entry_le_true in E. split; [done|].
      intros e He. inversion He; subst; [lia | by apply H2].
    + apply entry_le_false in E. split; [lia|].
      intros e He. inversion He; subst; [done | by apply H2].
Qed.

Lemma remove_first_elem m l e : e ∈ remove_first m l -> e ∈ l.
Proof.
  induction l as [|b l IH]; simpl; [done|].
  destruct (decide (m = b)); intros H; [by right|].
  inversion H; subst; [left | right; auto].
Qed.

Lemma remove_first_keeps m l e : e ∈ l -> e = m \/ e ∈ remove_first m l.
Proof.
  induction l as [|b l IH]; simpl; intros H; [inversion H|].
  destruct (decide (m = b)) as [->|Hne].
  - inversion H; subst; auto.
  - inversion H; subst; [right; left|].
    destruct IH as [->|IH']; auto. right. by right.
Qed.

Lemma remove_first_length m l :
  m ∈ l -> length l = S (length (remove_first m l)).
Proof.
  induction l as [|b l IH]; simpl; intros H; [inversion H|].
  destruct (decide (m = b)) as [->|Hne]; [done|].
  inversion H; subst; [done|]. simpl. f_equal. auto.
Qed.

(** What [get] gives: a least-priority entry leaves the queue. *)
Lemma get_spec q x q' :
  get q = Some (x, q') ->
  exists p, (p, x) ∈ elements q /\
    (forall e, e ∈ elements q -> p <= e.1) /\
    (forall e, e ∈ elements q' -> e ∈ elements q) /\
    (forall e, e ∈ elements q -> e = (p, x) \/ e ∈ elements q') /\
    length (elements q) = S (length (elements q')).
Proof.
  unfold get, heappop. destruct q as [h]. simpl.
  destruct h as [|a l]; [done|]. intros H. injection H as <- <-. simpl.
  set (m := heap_min a l).
  assert (Hm : m ∈ a :: l).
  { destruct (heap_min_elem a l) as [E|E]; fold m in E; [rewrite E; left | by right]. }
  exists m.1. destruct (heap_min_least a l) as [L1 L2]. fold m in L1, L2.
  split; [by destruct m|]. split.
  { intros e He. inversion He; subst; auto. }
  split.
  { intros e He. by apply (remove_first_elem m (a :: l)). }
  split.
  { intros e He. destruct (remove_first_keeps m (a :: l) e He) as [->|?]; [left; by destruct m | by right]. }
  by apply (remove_first_length m (a :: l)).
Qed.

Lemma get_nonempty q : empty q = false -> exists x q', get q = Some (x, q').
Proof.
  unfold empty, get, heappop. destruct (elements q); [done|]. eauto.
Qed.

Lemma elem_put q item priority e :
  e ∈ elements (put q item priority) <-> e = (priority, item) \/ e ∈ elements q.
Proof. unfold put, heappush. simpl. apply elem_of_cons. Qed.

(** ** The machine *)

Section SearchFacts.

Variable hex_range : string -> nat -> list string.
Variable g : H3CostGraph.
Variable hex_goal : option string.
Variable distance_goal : option Z.

Local Abbreviation step' := (step hex_range g hex_goal distance_goal).
Local Abbreviation steps' n := (steps hex_range n g hex_goal distance_goal).
Local Abbreviation run' n := (run hex_range n g hex_goal distance_goal).

Lemma step_halt c r :
  step' c = Halt r -> r = (came_from c, cost_so_far c) /\ at_pc c = AtWhile.
Proof.
  unfold step, relax. destruct (at_pc c) as [|cur [|nx todo]]; try done.
  - destruct (empty (frontier c)); [by intros [= <-]|].
    destruct (get (frontier c)) as [[x q]|]; [|done].
    destruct (at_goal hex_goal x); [by intros [= <-] | done].
  - destruct (cost_so_far c !! cur); [|done].
    destruct (improves _ _ _); [destruct (pruned _ _)|]; done.
Qed.

Lemma steps_snoc n c c1 c2 :
  steps' n c = Some c1 -> step' c1 = Next c2 -> steps' (S n) c = Some c2.
Proof.
  revert c. induction n as [|n IH]; intros c; simpl.
  - intros [= ->] ->. done.
  - destruct (step' c); try done. intros. by apply IH.
Qed.

Lemma steps_unsnoc n c c2 :
  steps' (S n) c = Some c2 -> exists c1, steps' n c = Some c1 /\ step' c1 = Next c2.
Proof.
  revert c. induction n as [|n IH]; intros c.
  - simpl. destruct (step' c) eqn:E; try done. intros [= ->]. eauto.
  - intros H. change (steps' (S (S n)) c) with
      (match step' c with Next c' => steps' (S n) c' | _ => None end) in H.
    destruct (step' c) eqn:E; try done.
    destruct (IH _ H) as (c1 & H1 & H2). exists c1. split; [|done].
    simpl. by rewrite E.
Qed.

(** A property kept by every step holds all along the execution. *)
Lemma steps_invariant (I : config -> Prop) c0 :
  I c0 ->
  (forall c c', I c -> step' c = Next c' -> I c') ->
  forall n c, steps' n c0 = Some c -> I c.
Proof.
  intros H0 Hstep n. induction n as [|n IH]; intros c.
  - by intros [= <-].
  - intros H. destruct (steps_unsnoc _ _ _ H) as (c1 & H1 & H2). eauto.
Qed.

Lemma run_returned fuel c r :
  run' fuel c = Returned r ->
  exists n c', steps' n c = Some c' /\ step' c' = Halt r.
Proof.
  revert c. induction fuel as [|fuel IH]; intros c; simpl; [done|].
  destruct (step' c) eqn:E; try done.
  - intros H. destruct (IH _ H) as (n & c' & H1 & H2).
    exists (S n), c'. simpl. by rewrite E.
  - intros [= <-]. exists O, c. done.
Qed.

(** The maps returned by the search are those of a visited
    configuration at the head of the [while] loop. *)
Lemma search_returned fuel start cf cs :
  dijkstra_search hex_range fuel g start hex_goal distance_goal = Returned (cf, cs) ->
  exists c, visits hex_range g start hex_goal distance_goal c /\
            at_pc c = AtWhile /\ came_from c = cf /\ cost_so_far c = cs /\
            step' c = Halt (cf, cs).
Proof.
  unfold dijkstra_search. destruct (_ || _); [|done]. intros H.
  destruct (run_returned _ _ _ H) as (n & c & H1 & H2).
  destruct (step_halt _ _ H2) as [[= -> ->] Hpc].
  exists c. split; [by exists n|]. done.
Qed.

(** Case analysis of a step that goes on. *)
Lemma step_next_cases c c' :
  step' c = Next c' ->
  (exists x q, at_pc c = AtWhile /\ get (frontier c) = Some (x, q) /\
      at_goal hex_goal x = false /\
      c' = Config q (came_from c) (cost_so_far c) (InFor x (neighbors hex_range g x)))
  \/ (exists x, at_pc c = InFor x [] /\
      c' = Config (frontier c) (came_from c) (cost_so_far c) AtWhile)
  \/ (exists x y todo v, at_pc c = InFor x (y :: todo) /\
      cost_so_far c !! x = Some v /\
      improves (cost_so_far c) y (v + cost g x y) = false /\
      c' = Config (frontier c) (came_from c) (cost_so_far c) (InFor x todo))
  \/ (exists x y todo v, at_pc c = InFor x (y :: todo) /\
      cost_so_far c !! x = Some v /\
      improves (cost_so_far c) y (v + cost g x y) = true /\
      pruned distance_goal (v + cost g x y) = true /\
      c' = Config (frontier c) (<[ y := Some x ]> (came_from c))
                  (<[ y := v + cost g x y ]> (cost_so_far c)) (InFor x todo))
  \/ (exists x y todo v, at_pc c = InFor x (y :: todo) /\
      cost_so_far c !! x = Some v /\
      improves (cost_so_far c) y (v + cost g x y) = true /\
      pruned distance_goal (v + cost g x y) = false /\
      c' = Config (put (frontier c) y (v + cost g x y)) (<[ y := Some x ]> (came_from c))
                  (<[ y := v + cost g x y ]> (cost_so_far c)) (InFor x todo)).
Proof.
  unfold step, relax. cbv zeta. destruct (at_pc c) as [|x [|y todo]].
  - destruct (empty (frontier c)); [done|].
    destruct (get (frontier c)) as [[x q]|]; [|done].
    destruct (at_goal hex_goal x) eqn:E; [done|]. intros [= <-].
    left. exists x, q. repeat (split; [done|]); done.
  - intros [= <-]. right; left. exists x. repeat (split; [done|]); done.
  - destruct (cost_so_far c !! x) as [v|] eqn:Ev; [|done].
    destruct (improves _ _ _) eqn:E1.
    + destruct (pruned _ _) eqn:E2; intros [= <-]; right; right; right.
      * left. exists x, y, todo, v. repeat (split; [done|]); done.
      * right. exists x, y, todo, v. repeat (split; [done|]); done.
    + intros [= <-]. right; right; left. exists x, y, todo, v. repeat (split; [done|]); done.
Qed.

End SearchFacts.

(** ** The precondition of the search *)

Lemma run_no_assertion hex_range fuel g hex_goal distance_goal c :
  run hex_range fuel g hex_goal distance_goal c <> Raised AssertionError.
Proof.
  revert c. induction fuel as [|fuel IH]; intros c; simpl; [done|].
  destruct (step hex_range g hex_goal distance_goal c) eqn:E; [apply IH | done |].
  intros [= ->]. revert E. unfold step, relax.
  destruct (at_pc c) as [|x [|y todo]]; [| done |].
  - destruct (empty _); [done|]. destruct (get _) as [[? ?]|]; [|done].
    by destruct (at_goal _ _).
  - destruct (cost_so_far c !! x); [|done].
    destruct (improves _ _ _); [destruct (pruned _ _)|]; done.
Qed.

(** C7, as the code has it: a call that supplies neither [hex_goal] nor
    [distance_goal] is rejected by the assertion whatever the fuel, so
    before any step of the loop; a call where at least one of the two
    is supplied with a truthy value, both included, is accepted and is
    the loop run from the initial configuration. *)
Theorem search_precondition hex_range fuel g start hex_goal distance_goal :
  (hex_goal = None /\ distance_goal = None ->
     dijkstra_search hex_range fuel g start hex_goal distance_goal = Raised AssertionError)
  /\ (truthy_str hex_goal = true \/ truthy_num distance_goal = true ->
     dijkstra_search hex_range fuel g start hex_goal distance_goal
       = run hex_range fuel g hex_goal distance_goal (init_config start)
     /\ dijkstra_search hex_range fuel g start hex_goal distance_goal <> Raised AssertionError).
Proof.
  split.
  - intros [-> ->]. reflexivity.
  - intros H. unfold dijkstra_search.
    assert (E : truthy_str hex_goal || truthy_num distance_goal = true).
    { apply orb_true_iff. exact H. }
    rewrite E. split; [reflexivity | apply run_no_assertion].
Qed.

(** ** The cost charged by a relaxation *)

(** C5, as the code has it: a relaxation from [current] into [next]
    that succeeds records for [next] the cost of [current] plus the
    cost of the cell [current] being left: the table's ["value"] for
    [current], or 20 when the table has no such value; the weight is
    the same for every neighbour [next]. *)
Theorem relax_charges_current g distance_goal current next todo c v :
  cost_so_far c !! current = Some v ->
  improves (cost_so_far c) next (v + cost g current next) = true ->
  exists c', relax g distance_goal current next todo c = Next c'
    /\ cost_so_far c' !! next = Some (v + table_cost g current)
    /\ cost g current next = table_cost g current
    /\ forall next', cost g current next' = cost g current next.
Proof.
  intros Hv Himp.
  assert (Hc : forall n, cost g current n = table_cost g current).
  { intros n. unfold cost, table_cost. by destruct (costs g !! current). }
  unfold relax. rewrite Hv. cbv zeta. rewrite Himp.
  destruct (pruned distance_goal _); eexists; (split; [reflexivity|]); simpl;
    rewrite lookup_insert_eq, Hc; repeat split; auto; intros; by rewrite !Hc.
Qed.

(** ** The two maps have the same keys *)

Lemma same_keys_init start : same_keys start (init_config start).
Proof.
  unfold same_keys, init_config. simpl. rewrite !dom_singleton_L. set_solver.
Qed.

Lemma same_keys_step hex_range g hex_goal distance_goal start c c' :
  same_keys start c -> step hex_range g hex_goal distance_goal c = Next c' ->
  same_keys start c'.
Proof.
  intros [Hd Hs] H. unfold same_keys.
  destruct (step_next_cases _ _ _ _ _ _ H) as
    [(x & q & _ & _ & _ & E) | [(x & _ & E) | [(x & y & todo & v & _ & _ & _ & E)
     | [(x & y & todo & v & _ & _ & _ & _ & E) | (x & y & todo & v & _ & _ & _ & _ & E)]]]];
    rewrite E; simpl; [done | done | done | |];
    rewrite !dom_insert_L; rewrite Hd; split; [done | | done |]; apply elem_of_union; by right.
Qed.

Lemma same_keys_visits hex_range g hex_goal distance_goal start c :
  visits hex_range g start hex_goal distance_goal c -> same_keys start c.
Proof.
  intros [n Hn]. revert n c Hn. apply steps_invariant.
  - apply same_keys_init.
  - intros c c'. apply same_keys_step.
Qed.

(** C9: from initialisation on, [came_from[start]] is [None] and
    [cost_so_far[start]] is 0; in every configuration the search goes
    through (the head of the [while] loop and each iteration of the
    [for] loop) the two maps have the same keys, [start] among them, so
    a step gives a cell a predecessor exactly when it gives it a cost;
    and so have the two maps returned. *)
Theorem came_from_cost_so_far_same_keys hex_range g start hex_goal distance_goal :
  came_from (init_config start) !! start = Some None
  /\ cost_so_far (init_config start) !! start = Some 0
  /\ (forall c, visits hex_range g start hex_goal distance_goal c ->
        dom (came_from c) = dom (cost_so_far c) /\ start ∈ dom (came_from c)
        /\ start ∈ dom (cost_so_far c))
  /\ (forall c c' x, visits hex_range g start hex_goal distance_goal c ->
        step hex_range g hex_goal distance_goal c = Next c' ->
        (x ∈ dom (came_from c') /\ x ∉ dom (came_from c)) <->
        (x ∈ dom (cost_so_far c') /\ x ∉ dom (cost_so_far c)))
  /\ (forall fuel cf cs,
        dijkstra_search hex_range fuel g start hex_goal distance_goal = Returned (cf, cs) ->
        dom cf = dom cs /\ start ∈ dom cf /\ start ∈ dom cs).
Proof.
  split; [apply lookup_singleton_eq|]. split; [apply lookup_singleton_eq|].
  split; [|split].
  - intros c Hc. destruct (same_keys_visits _ _ _ _ _ _ Hc) as [Hd Hs].
    rewrite Hd. done.
  - intros c c' x Hc Hstep.
    destruct (same_keys_visits _ _ _ _ _ _ Hc) as [Hd _].
    destruct (same_keys_step _ _ _ _ _ _ _ (same_keys_visits _ _ _ _ _ _ Hc) Hstep) as [Hd' _].
    by rewrite Hd, Hd'.
  - intros fuel cf cs H.
    destruct (search_returned _ _ _ _ _ _ _ _ H) as (c & Hc & _ & <- & <- & _).
    destruct (same_keys_visits _ _ _ _ _ _ Hc) as [Hd Hs].
    rewrite Hd. done.
Qed.

(** ** Later configurations *)

Lemma steps_add hex_range g hex_goal distance_goal n k c :
  steps hex_range (n + k) g hex_goal distance_goal c =
  match steps hex_range n g hex_goal distance_goal c with
  | Some c1 => steps hex_range k g hex_goal distance_goal c1
  | None => None
  end.
Proof.
  revert c. induction n as [|n IH]; intros c; simpl; [done|].
  destruct (step hex_range g hex_goal distance_goal c); auto.
Qed.

(** The configuration the search returns from comes after every
    configuration it goes through. *)
Lemma visits_before_return hex_range fuel g start hex_goal distance_goal c cf cs :
  visits hex_range g start hex_goal distance_goal c ->
  dijkstra_search hex_range fuel g start hex_goal distance_goal = Returned (cf, cs) ->
  exists k c', steps hex_range k g hex_goal distance_goal c = Some c'
    /\ at_pc c' = AtWhile /\ came_from c' = cf /\ cost_so_far c' = cs
    /\ step hex_range g hex_goal distance_goal c' = Halt (cf, cs).
Proof.
  intros [n Hn] H.
  destruct (search_returned _ _ _ _ _ _ _ _ H) as (c' & [m Hm] & Hpc & Hcf & Hcs & Hh).
  destruct (decide (n <= m)%nat) as [Hle|Hgt].
  - exists (m - n)%nat, c'. split; [|done].
    replace m with (n + (m - n))%nat in Hm by lia.
    rewrite steps_add, Hn in Hm. done.
  - exfalso. replace n with (m + S (n - m - 1))%nat in Hn by lia.
    rewrite steps_add, Hm in Hn. simpl in Hn. by rewrite Hh in Hn.
Qed.

(** ** Costs only go down *)

Lemma improves_spec cs y nc :
  improves cs y nc = true <-> cs !! y = None \/ exists old, cs !! y = Some old /\ nc < old.
Proof.
  unfold improves. destruct (cs !! y) as [old|]; split; auto.
  - intros H. right. exists old. split; [done | lia].
  - intros [?|(o & [= <-] & ?)]; [done | lia].
Qed.

Lemma improves_false cs y nc :
  improves cs y nc = false -> exists old, cs !! y = Some old /\ old <= nc.
Proof.
  unfold improves. destruct (cs !! y) as [old|]; [|done].
  intros H. exists old. split; [done | lia].
Qed.

Lemma step_cost_decreases hex_range g hex_goal distance_goal c c' x v :
  step hex_range g hex_goal distance_goal c = Next c' ->
  cost_so_far c !! x = Some v ->
  exists v', cost_so_far c' !! x = Some v' /\ v' <= v.
Proof.
  intros H Hx.
  destruct (step_next_cases _ _ _ _ _ _ H) as
    [(a & q & _ & _ & _ & E) | [(a & _ & E) | [(a & y & todo & va & _ & _ & _ & E)
     | [(a & y & todo & va & _ & _ & Hi & _ & E) | (a & y & todo & va & _ & _ & Hi & _ & E)]]]];
    rewrite E; simpl; try (exists v; split; [done | lia]).
  all: destruct (decide (y = x)) as [->|Hne];
    [ rewrite lookup_insert_eq; eexists; split; [done|];
      apply improves_spec in Hi as [Hi|(old & Hi & ?)]; [congruence|];
      assert (old = v) by congruence; lia
    | rewrite lookup_insert_ne by done; exists v; split; [done | lia] ].
Qed.

Lemma steps_cost_decreases hex_range g hex_goal distance_goal k c c' x v :
  steps hex_range k g hex_goal distance_goal c = Some c' ->
  cost_so_far c !! x = Some v ->
  exists v', cost_so_far c' !! x = Some v' /\ v' <= v.
Proof.
  intros Hk Hx. revert k c' Hk.
  apply (steps_invariant hex_range g hex_goal distance_goal
           (fun c' => exists v', cost_so_far c' !! x = Some v' /\ v' <= v)).
  - exists v. split; [done | lia].
  - intros c1 c2 (v1 & H1 & Hle) Hs.
    destruct (step_cost_decreases _ _ _ _ _ _ _ _ Hs H1) as (v2 & H2 & Hle2).
    exists v2. split; [done | lia].
Qed.

(** ** The ceiling *)

Lemma step_enqueues_below hex_range g hex_goal C c c' e :
  step hex_range g hex_goal (Some C) c = Next c' ->
  e ∈ elements (frontier c') -> e ∈ elements (frontier c) \/ e.1 < C.
Proof.
  intros H He.
  destruct (step_next_cases _ _ _ _ _ _ H) as
    [(x & q & _ & Hg & _ & E) | [(x & _ & E) | [(x & y & todo & v & _ & _ & _ & E)
     | [(x & y & todo & v & _ & _ & _ & _ & E) | (x & y & todo & v & _ & _ & _ & Hp & E)]]]];
    rewrite E in He; simpl in He; auto.
  - left. destruct (get_spec _ _ _ Hg) as (p & _ & _ & Hsub & _). auto.
  - apply elem_put in He as [->|He]; [|by left].
    right. simpl. unfold pruned in Hp. lia.
Qed.

Lemma below_ceiling_visits hex_range g hex_goal C start c :
  visits hex_range g start hex_goal (Some C) c -> below_ceiling C start c.
Proof.
  intros [n Hn]. revert n c Hn. apply steps_invariant.
  - intros e He. right. unfold init_config, put, heappush in He. simpl in He.
    by apply list_elem_of_singleton in He.
  - intros c c' I H e He.
    destruct (step_enqueues_below _ _ _ _ _ _ _ H He); auto.
Qed.

(** C6, as the code has it: with [distance_goal = C], no step of the
    search enqueues a cell with a priority at or above [C], so that
    for a ceiling above 0 the frontier never holds an entry at or
    above [C]; a relaxation that succeeds with a candidate at or above
    [C] writes the candidate and the predecessor into the two maps and
    leaves the frontier as it is; the cell is then in both returned
    maps, with a cost that is at most that candidate: a later, cheaper
    relaxation may have replaced the cost and the predecessor. *)
Theorem ceiling_respected hex_range g start hex_goal C :
  (forall c c' e,
      step hex_range g hex_goal (Some C) c = Next c' ->
      e ∈ elements (frontier c') -> e ∈ elements (frontier c) \/ e.1 < C)
  /\ (forall c e,
      0 < C ->
      visits hex_range g start hex_goal (Some C) c ->
      e ∈ elements (frontier c) -> e.1 < C)
  /\ (forall c current next todo v,
      cost_so_far c !! current = Some v ->
      improves (cost_so_far c) next (v + cost g current next) = true ->
      C <= v + cost g current next ->
      relax g (Some C) current next todo c =
        Next (Config (frontier c)
                     (<[ next := Some current ]> (came_from c))
                     (<[ next := v + cost g current next ]> (cost_so_far c))
                     (InFor current todo)))
  /\ (forall fuel c current next todo v cf cs,
      visits hex_range g start hex_goal (Some C) c ->
      at_pc c = InFor current (next :: todo) ->
      cost_so_far c !! current = Some v ->
      improves (cost_so_far c) next (v + cost g current next) = true ->
      C <= v + cost g current next ->
      dijkstra_search hex_range fuel g start hex_goal (Some C) = Returned (cf, cs) ->
      is_Some (cf !! next)
      /\ exists w, cs !! next = Some w /\ w <= v + cost g current next).
Proof.
  assert (Hrelax : forall c current next todo v,
      cost_so_far c !! current = Some v ->
      improves (cost_so_far c) next (v + cost g current next) = true ->
      C <= v + cost g current next ->
      relax g (Some C) current next todo c =
        Next (Config (frontier c)
                     (<[ next := Some current ]> (came_from c))
                     (<[ next := v + cost g current next ]> (cost_so_far c))
                     (InFor current todo))).
  { intros c current next todo v Hv Himp HC.
    unfold relax. rewrite Hv. cbv zeta. rewrite Himp.
    unfold pruned. destruct (Z.leb_spec C (v + cost g current next)); [done | lia]. }
  split; [|split; [|split]].
  - intros c c' e. apply step_enqueues_below.
  - intros c e HC Hc He.
    destruct (below_ceiling_visits _ _ _ _ _ _ Hc e He) as [?| ->]; [done | simpl; lia].
  - exact Hrelax.
  - intros fuel c current next todo v cf cs [n Hn] Hpc Hv Himp HC Hret.
    pose proof (Hrelax c current next todo v Hv Himp HC) as Hs.
    assert (Hstep : step hex_range g hex_goal (Some C) c =
                    Next (Config (frontier c)
                     (<[ next := Some current ]> (came_from c))
                     (<[ next := v + cost g current next ]> (cost_so_far c))
                     (InFor current todo))).
    { unfold step. by rewrite Hpc. }
    pose proof (steps_snoc _ _ _ _ _ _ _ _ Hn Hstep) as Hn'.
    destruct (visits_before_return _ _ _ _ _ _ _ _ _ (ex_intro _ _ Hn') Hret)
      as (k & c' & Hk & _ & Hcf & Hcs & _).
    destruct (steps_cost_decreases _ _ _ _ _ _ _ next (v + cost g current next) Hk)
      as (w & Hw & Hle); [simpl; apply lookup_insert_eq|].
    assert (Hvis' : visits hex_range g start hex_goal (Some C) c').
    { exists (S n + k)%nat. by rewrite steps_add, Hn'. }
    destruct (same_keys_visits _ _ _ _ _ _ Hvis') as [Hdom _].
    rewrite <- Hcf, <- Hcs. split; [|eauto].
    apply elem_of_dom. rewrite Hdom. apply elem_of_dom. eauto.
Qed.

(** ** Optimality of the costs of popped cells *)

Lemma cost_nonneg g x y : nonneg_costs g -> 0 <= cost g x y.
Proof.
  intros H. unfold cost. destruct (costs g !! x) as [r|] eqn:E; simpl.
  - exact (map_Forall_lookup_1 _ _ _ _ H E).
  - rewrite lookup_empty. simpl. lia.
Qed.

Section Optimality.

Variable hex_range : string -> nat -> list string.
Variable g : H3CostGraph.
Variable start : string.
Variable hex_goal : option string.
Variable distance_goal : option Z.
Hypothesis nonneg : nonneg_costs g.

Local Abbreviation path' := (path hex_range g start).
Local Abbreviation nbrs := (neighbors hex_range g).
Local Abbreviation search_inv := (search_inv hex_range g start distance_goal).
Local Abbreviation done_with := (done_with hex_range g).
Local Abbreviation inv_start := (inv_start hex_range g start distance_goal).
Local Abbreviation inv_path := (inv_path hex_range g start distance_goal).
Local Abbreviation inv_frontier := (inv_frontier hex_range g start distance_goal).
Local Abbreviation inv_ceiling := (inv_ceiling hex_range g start distance_goal).
Local Abbreviation inv_closed := (inv_closed hex_range g start distance_goal).
Local Abbreviation inv_todo := (inv_todo hex_range g start distance_goal).

Lemma path_nonneg x w : path' x w -> 0 <= w.
Proof.
  induction 1 as [|x y w _ IH _]; [lia|].
  pose proof (cost_nonneg g x y nonneg). lia.
Qed.

Lemma search_inv_init : search_inv (init_config start).
Proof.
  split; simpl.
  - apply lookup_singleton_eq.
  - intros x v H. apply lookup_singleton_Some in H as [<- <-]. constructor.
  - intros e He. apply list_elem_of_singleton in He as ->. simpl.
    exists 0. by rewrite lookup_singleton_eq.
  - intros e He. apply list_elem_of_singleton in He. by right.
  - intros x v H. apply lookup_singleton_Some in H as [<- <-]. left. left.
  - intros x todo y H. discriminate H.
Qed.

Lemma inv_cost_nonneg c x v : search_inv c -> cost_so_far c !! x = Some v -> 0 <= v.
Proof. intros I H. eapply path_nonneg, inv_path; eauto. Qed.

Lemma search_inv_pop c x q :
  search_inv c -> at_pc c = AtWhile -> get (frontier c) = Some (x, q) ->
  search_inv (Config q (came_from c) (cost_so_far c) (InFor x (nbrs x))).
Proof.
  intros I Hpc Hg.
  destruct (get_spec _ _ _ Hg) as (p & Hp & Hmin & Hsub & Hcov & _).
  split; simpl.
  - apply I.
  - apply I.
  - intros e He. apply I. auto.
  - intros e He. apply I. auto.
  - intros z v Hz. destruct (inv_closed c I z v Hz) as [Hf|[Hpr|Hd]].
    + destruct (Hcov _ Hf) as [[= -> ->]|Hq]; [|by left].
      right; right. intros y Hy. right. simpl. eauto.
    + auto.
    + right; right. intros y Hy. destruct (Hd y Hy) as [?|(todo & Ht & _)]; [by left|].
      congruence.
  - intros z todo y [= <- <-] Hy. done.
Qed.

Lemma search_inv_for_end c x :
  search_inv c -> at_pc c = InFor x [] ->
  search_inv (Config (frontier c) (came_from c) (cost_so_far c) AtWhile).
Proof.
  intros I Hpc. split; simpl; try apply I.
  - intros z v Hz. destruct (inv_closed c I z v Hz) as [Hf|[Hpr|Hd]]; auto.
    right; right. intros y Hy. destruct (Hd y Hy) as [?|(todo & Ht & Hin)]; [by left|].
    rewrite Hpc in Ht. injection Ht as <- <-. inversion Hin.
  - intros z todo y H. discriminate H.
Qed.

Lemma search_inv_skip c x y todo v :
  search_inv c -> at_pc c = InFor x (y :: todo) ->
  cost_so_far c !! x = Some v ->
  improves (cost_so_far c) y (v + cost g x y) = false ->
  search_inv (Config (frontier c) (came_from c) (cost_so_far c) (InFor x todo)).
Proof.
  intros I Hpc Hx Hi. apply improves_false in Hi as (old & Hold & Hle).
  split; simpl; try apply I.
  - intros z vz Hz. destruct (inv_closed c I z vz Hz) as [Hf|[Hpr|Hd]]; auto.
    right; right. intros y' Hy'. destruct (Hd y' Hy') as [?|(todo' & Ht & Hin)]; [by left|].
    rewrite Hpc in Ht. injection Ht as <- <-.
    assert (vz = v) as -> by congruence.
    apply elem_of_cons in Hin as [->|Hin]; [left; eauto | right; simpl; eauto].
  - intros z todo' y' [= <- <-] Hy'. apply (inv_todo c I x (y :: todo)); [done | by right].
Qed.

(** The part of the invariant a successful relaxation keeps whether
    or not the cell is put on the frontier. *)
Lemma search_inv_relax c x y todo v fr :
  search_inv c -> at_pc c = InFor x (y :: todo) ->
  cost_so_far c !! x = Some v ->
  improves (cost_so_far c) y (v + cost g x y) = true ->
  (forall e, e ∈ elements fr <-> e ∈ elements (frontier c) \/
      (pruned distance_goal (v + cost g x y) = false /\ e = (v + cost g x y, y))) ->
  search_inv (Config fr (<[ y := Some x ]> (came_from c))
                     (<[ y := v + cost g x y ]> (cost_so_far c)) (InFor x todo)).
Proof.
  intros I Hpc Hx Hi Hfr. set (nc := v + cost g x y) in *.
  assert (Hy : y ∈ nbrs x) by (apply (inv_todo c I x (y :: todo)); [done | left]).
  assert (Hv0 : 0 <= v) by (eapply inv_cost_nonneg; eauto).
  pose proof (cost_nonneg g x y nonneg) as Hc0.
  assert (Hold : forall old, cost_so_far c !! y = Some old -> nc < old).
  { intros old Ho. apply improves_spec in Hi as [Hi|(o & Hi & ?)]; [congruence|].
    assert (o = old) by congruence. lia. }
  assert (Hys : y <> start).
  { intros ->. pose proof (Hold 0 (inv_start c I)). lia. }
  split; simpl.
  - rewrite lookup_insert_ne by done. apply I.
  - intros z vz. destruct (decide (y = z)) as [->|Hne].
    + rewrite lookup_insert_eq. intros [= <-]. constructor; [|done].
      by apply (inv_path c I).
    + rewrite lookup_insert_ne by done. apply I.
  - intros e He. apply Hfr in He as [He|[_ ->]].
    + destruct (inv_frontier c I e He) as (ve & Hve & Hle).
      destruct (decide (y = e.2)) as [->|Hne].
      * rewrite lookup_insert_eq. exists nc. split; [done|].
        pose proof (Hold _ Hve). lia.
      * rewrite lookup_insert_ne by done. eauto.
    + simpl. rewrite lookup_insert_eq. exists nc. split; [done | lia].
  - intros e He. apply Hfr in He as [He|[Hp ->]]; [by apply I | by left].
  - intros z vz. destruct (decide (y = z)) as [->|Hne].
    + rewrite lookup_insert_eq. intros [= <-].
      destruct (pruned distance_goal nc) eqn:Hp; [auto|].
      left. apply Hfr. right. done.
    + rewrite lookup_insert_ne by done. intros Hz.
      destruct (inv_closed c I z vz Hz) as [Hf|[Hpr|Hd]].
      * left. apply Hfr. by left.
      * auto.
      * right; right. intros y' Hy'.
        assert (Hkeep : forall w, cost_so_far c !! y' = Some w -> w <= vz + cost g z y' ->
                  exists w', <[ y := nc ]> (cost_so_far c) !! y' = Some w' /\ w' <= vz + cost g z y').
        { intros w Hw Hle. destruct (decide (y = y')) as [->|Hne'].
          - rewrite lookup_insert_eq. exists nc. split; [done|].
            pose proof (Hold _ Hw). lia.
          - rewrite lookup_insert_ne by done. eauto. }
        destruct (Hd y' Hy') as [(w & Hw & Hle)|(todo' & Ht & Hin)]; [left; eauto|].
        rewrite Hpc in Ht. injection Ht as <- <-.
        assert (vz = v) as -> by congruence.
        apply elem_of_cons in Hin as [->|Hin]; [|right; eauto].
        left. simpl. rewrite lookup_insert_eq. exists nc. split; [done|]. unfold nc. lia.
  - intros z todo' y' [= <- <-] Hy'. apply (inv_todo c I x (y :: todo)); [done | by right].
Qed.

Lemma search_inv_step c c' :
  search_inv c -> step hex_range g hex_goal distance_goal c = Next c' -> search_inv c'.
Proof.
  intros I H.
  destruct (step_next_cases _ _ _ _ _ _ H) as
    [(x & q & Hpc & Hg & _ & E) | [(x & Hpc & E) | [(x & y & todo & v & Hpc & Hx & Hi & E)
     | [(x & y & todo & v & Hpc & Hx & Hi & Hp & E)
       | (x & y & todo & v & Hpc & Hx & Hi & Hp & E)]]]]; rewrite E.
  - by apply search_inv_pop.
  - by apply (search_inv_for_end c x).
  - by apply (search_inv_skip c x y todo v).
  - apply (search_inv_relax c x y todo v); try done.
    intros e. rewrite Hp. split; [by left | by intros [?|[? _]]].
  - apply (search_inv_relax c x y todo v); try done.
    intros e. rewrite elem_put, Hp. split.
    + intros [->|He]; [by right | by left].
    + intros [He|[_ ->]]; [by right | by left].
Qed.

Lemma search_inv_visits c :
  visits hex_range g start hex_goal distance_goal c -> search_inv c.
Proof.
  intros [n Hn]. revert n c Hn. apply steps_invariant.
  - apply search_inv_init.
  - apply search_inv_step.
Qed.

(** At the head of the [while] loop, a path of cost [w] to [x] is
    matched by the recorded cost of [x], or by an entry of the
    frontier, or it reaches the ceiling. *)
Lemma path_bounded_below c x w :
  search_inv c -> at_pc c = AtWhile -> path' x w ->
  (exists v, cost_so_far c !! x = Some v /\ v <= w)
  \/ (exists e, e ∈ elements (frontier c) /\ e.1 <= w)
  \/ (exists C, distance_goal = Some C /\ C <= w).
Proof.
  intros I Hpc Hp. induction Hp as [|x y w Hp IH Hy].
  - left. exists 0. split; [apply I | lia].
  - pose proof (cost_nonneg g x y nonneg) as Hc0.
    assert (Hmono : forall v, pruned distance_goal v = true -> v <= w ->
              exists C, distance_goal = Some C /\ C <= w + cost g x y).
    { intros v Hpr Hle. unfold pruned in Hpr. destruct distance_goal as [C|]; [|done].
      exists C. split; [done | lia]. }
    destruct IH as [(v & Hv & Hle)|[(e & He & Hle)|(C & HC & Hle)]].
    + destruct (inv_closed c I x v Hv) as [Hf|[Hpr|Hd]].
      * right; left. exists (v, x). split; [done | simpl; lia].
      * right; right. eauto.
      * destruct (Hd y Hy) as [(w' & Hw' & Hle')|(todo & Ht & _)]; [|congruence].
        left. exists w'. split; [done | lia].
    + right; left. exists e. split; [done | lia].
    + right; right. exists C. split; [done | lia].
Qed.

(** The cell popped from the frontier has its least cost recorded. *)
Lemma popped_least c x q :
  search_inv c -> at_pc c = AtWhile -> get (frontier c) = Some (x, q) ->
  exists v, cost_so_far c !! x = Some v /\ least_cost hex_range g start x v.
Proof.
  intros I Hpc Hg.
  destruct (get_spec _ _ _ Hg) as (p & Hp & Hmin & _).
  destruct (inv_frontier c I _ Hp) as (v & Hv & Hle). simpl in Hv, Hle.
  exists v. split; [done|]. split; [by apply (inv_path c I)|].
  intros w Hw.
  destruct (path_bounded_below c x w I Hpc Hw) as [(v' & Hv' & Hle')|[(e & He & Hle')|(C & HC & Hle')]].
  - assert (v' = v) by congruence. lia.
  - pose proof (Hmin e He). lia.
  - destruct (inv_ceiling c I _ Hp) as [Hpr|[= -> ->]].
    + simpl in Hpr. unfold pruned in Hpr. rewrite HC in Hpr. lia.
    + pose proof (path_nonneg _ _ Hw). lia.
Qed.

Lemma popped_cost_final fuel cf cs x :
  dijkstra_search hex_range fuel g start hex_goal distance_goal = Returned (cf, cs) ->
  popped hex_range g start hex_goal distance_goal x ->
  exists w, cs !! x = Some w /\ least_cost hex_range g start x w.
Proof.
  intros Hret (c & q & Hvis & Hpc & Hg).
  destruct (popped_least c x q (search_inv_visits c Hvis) Hpc Hg) as (v & Hv & Hleast).
  destruct (visits_before_return _ _ _ _ _ _ _ _ _ Hvis Hret)
    as (k & c' & Hk & _ & _ & Hcs & _).
  destruct (steps_cost_decreases _ _ _ _ _ _ _ _ _ Hk Hv) as (v' & Hv' & Hle).
  assert (Hvis' : visits hex_range g start hex_goal distance_goal c').
  { destruct Hvis as [n Hn]. exists (n + k)%nat. by rewrite steps_add, Hn. }
  pose proof (inv_path c' (search_inv_visits c' Hvis') x v' Hv') as Hp'.
  destruct Hleast as [_ Hmin]. pose proof (Hmin v' Hp').
  assert (v' = v) as -> by lia.
  exists v. rewrite <- Hcs. split; [done|]. split; [|done].
  by apply (inv_path c' (search_inv_visits c' Hvis')).
Qed.

Lemma start_cost_final fuel cf cs :
  dijkstra_search hex_range fuel g start hex_goal distance_goal = Returned (cf, cs) ->
  cs !! start = Some 0.
Proof.
  intros Hret.
  destruct (search_returned _ _ _ _ _ _ _ _ Hret) as (c & Hvis & _ & _ & <- & _).
  apply (inv_start c (search_inv_visits c Hvis)).
Qed.

End Optimality.

(** C1: on a cost graph whose table holds no negative cost, when
    [dijkstra_search] returns, the returned cost map gives every cell
    popped from the frontier during the run the least cumulative cost
    of the paths of the grid from [start] to that cell, and gives
    [start] the cost 0. *)
Theorem dijkstra_optimal hex_range fuel g start hex_goal distance_goal cf cs :
  nonneg_costs g ->
  dijkstra_search hex_range fuel g start hex_goal distance_goal = Returned (cf, cs) ->
  cs !! start = Some 0
  /\ forall x, popped hex_range g start hex_goal distance_goal x ->
       exists w, cs !! x = Some w /\ least_cost hex_range g start x w.
Proof.
  intros Hnn Hret. split.
  - eapply start_cost_final; eauto.
  - intros x Hx. eapply popped_cost_final; eauto.
Qed.

(** ** Reconstruction of paths *)

Lemma dict_get_set d k v k' :
  dict_get (dict_set d k v) k' = if decide (k = k') then Some v else dict_get d k'.
Proof.
  induction d as [|[k0 v0] d IH]; simpl.
  - destruct (decide (k = k')); done.
  - destruct (decide (k0 = k)) as [->|Hne]; simpl.
    + destruct (decide (k = k')); done.
    + destruct (decide (k0 = k')) as [->|Hne'].
      * destruct (decide (k = k')); congruence.
      * apply IH.
Qed.

Lemma dict_set_fresh d k v : dict_get d k = None -> dict_set d k v = d ++ [(k, v)].
Proof.
  induction d as [|[k0 v0] d IH]; simpl; [done|].
  destruct (decide (k0 = k)); [done|]. intros H. by rewrite IH.
Qed.

Lemma chain_below cf cs start x y nc z :
  (forall old, cs !! y = Some old -> nc < old) ->
  chain cf cs start z ->
  forall vz, cs !! z = Some vz -> vz <= nc ->
  chain (<[ y := Some x ]> cf) (<[ y := nc ]> cs) start z.
Proof.
  intros Hold. induction 1 as [|z u vz' vu Hzs Hcf Hz Hu Hle _ IH]; intros vz Hvz Hnc.
  - constructor.
  - assert (vz' = vz) as -> by congruence.
    assert (y <> z) by (intros ->; pose proof (Hold _ Hz); lia).
    assert (y <> u) by (intros ->; pose proof (Hold _ Hu); lia).
    apply (chain_step _ _ _ z u vz vu); try done.
    + by rewrite lookup_insert_ne.
    + by rewrite lookup_insert_ne.
    + by rewrite lookup_insert_ne.
    + apply (IH vu); [done | lia].
Qed.

Lemma chain_insert cf cs start x y vx nc z :
  (forall old, cs !! y = Some old -> nc < old) ->
  y <> start -> cs !! x = Some vx -> vx <= nc ->
  chain cf cs start x ->
  chain cf cs start z \/ z = y ->
  chain (<[ y := Some x ]> cf) (<[ y := nc ]> cs) start z.
Proof.
  intros Hold Hys Hx Hle Hcx.
  assert (Hx' : chain (<[ y := Some x ]> cf) (<[ y := nc ]> cs) start x).
  { by apply (chain_below cf cs start x y nc x Hold Hcx vx). }
  assert (Hxy : y <> x) by (intros ->; pose proof (Hold _ Hx); lia).
  assert (Hy' : chain (<[ y := Some x ]> cf) (<[ y := nc ]> cs) start y).
  { apply (chain_step _ _ _ y x nc vx); try done.
    - by rewrite lookup_insert_eq.
    - by rewrite lookup_insert_eq.
    - by rewrite lookup_insert_ne. }
  intros [Hz| ->]; [|done].
  induction Hz as [|z u vz vu Hzs Hcf Hz Hu Hle' _ IH]; [constructor|].
  destruct (decide (y = z)) as [<-|Hne]; [done|].
  destruct (decide (y = u)) as [<-|Hne'].
  - apply (chain_step _ _ _ z y vz nc); try done.
    + by rewrite lookup_insert_ne.
    + by rewrite lookup_insert_ne.
    + by rewrite lookup_insert_eq.
    + pose proof (Hold _ Hu). lia.
  - apply (chain_step _ _ _ z u vz vu); try done.
    + by rewrite lookup_insert_ne.
    + by rewrite lookup_insert_ne.
    + by rewrite lookup_insert_ne.
Qed.

Section PathValidity.

Variable hex_range : string -> nat -> list string.
Variable g : H3CostGraph.
Variable start : string.
Variable hex_goal : option string.
Variable distance_goal : option Z.
Hypothesis nonneg : nonneg_costs g.

Local Abbreviation chained := (chained hex_range g start distance_goal).

Lemma chained_step c c' :
  chained c -> step hex_range g hex_goal distance_goal c = Next c' -> chained c'.
Proof.
  intros [I Hch] H. split; [by apply (search_inv_step hex_range g start hex_goal distance_goal nonneg c)|].
  assert (Hrelax : forall x y v,
    cost_so_far c !! x = Some v ->
    improves (cost_so_far c) y (v + cost g x y) = true ->
    forall z vz, <[ y := v + cost g x y ]> (cost_so_far c) !! z = Some vz ->
      chain (<[ y := Some x ]> (came_from c)) (<[ y := v + cost g x y ]> (cost_so_far c)) start z).
  { intros x y v Hx Hi z vz Hz.
    assert (Hv0 : 0 <= v) by (eapply inv_cost_nonneg; eauto).
    pose proof (cost_nonneg g x y nonneg) as Hc0.
    assert (Hold : forall old, cost_so_far c !! y = Some old -> v + cost g x y < old).
    { intros old Ho. apply improves_spec in Hi as [Hi|(o & Hi & ?)]; [congruence|].
      assert (o = old) by congruence. lia. }
    assert (Hys : y <> start).
    { intros ->. pose proof (Hold 0 (inv_start _ _ _ _ c I)). lia. }
    apply (chain_insert _ _ start x y v); try done; [lia | by eapply Hch |].
    destruct (decide (y = z)) as [->|Hne]; [by right|].
    rewrite lookup_insert_ne in Hz by done. left. by eapply Hch. }
  destruct (step_next_cases _ _ _ _ _ _ H) as
    [(x & q & _ & _ & _ & E) | [(x & _ & E) | [(x & y & todo & v & _ & _ & _ & E)
     | [(x & y & todo & v & _ & Hx & Hi & _ & E)
       | (x & y & todo & v & _ & Hx & Hi & _ & E)]]]]; rewrite E; simpl; auto;
    intros z vz Hz; by apply (Hrelax x y v Hx Hi z vz).
Qed.

Lemma chained_visits c :
  visits hex_range g start hex_goal distance_goal c -> chained c.
Proof.
  intros [n Hn]. revert n c Hn. apply steps_invariant.
  - split; [apply search_inv_init|]. simpl.
    intros x v H. apply lookup_singleton_Some in H as [<- <-]. constructor.
  - apply chained_step.
Qed.

End PathValidity.

(** Walking a chain: the loop of [reconstruct_path] returns, and what
    it returns extends the profile it started from. *)
Lemma reconstruct_loop_chain cf cs start x :
  chain cf cs start x ->
  forall path,
    dict_get path start = None ->
    exists fuel0, forall fuel, (fuel0 <= fuel)%nat ->
      exists p, reconstruct_loop fuel cf cs start x path = Returned p
        /\ last p = Some (start, 0)
        /\ dict_get p start = Some 0
        /\ (x <> start -> dict_get p x = Some (default 0 (cs !! x)))
        /\ (forall k v, k <> start -> dict_get path k = Some v ->
              v = default 0 (cs !! k) -> dict_get p k = Some v).
Proof.
  induction 1 as [|x u vx vu Hxs Hcf Hx Hu Hle _ IH]; intros path Hps.
  - exists 1%nat. intros fuel Hf. destruct fuel as [|fuel]; [lia|]. simpl.
    rewrite decide_True by done. eexists. split; [done|].
    split; [by rewrite dict_set_fresh, last_snoc|].
    split; [rewrite dict_get_set; by rewrite decide_True|].
    split; [done|].
    intros k v Hk Hkv _. rewrite dict_get_set. by rewrite decide_False.
  - destruct (IH (dict_set path x (default 0 (cs !! x)))) as (fuel0 & Hfuel).
    { rewrite dict_get_set. by rewrite decide_False. }
    exists (S fuel0). intros fuel Hf. destruct fuel as [|fuel]; [lia|]. simpl.
    rewrite decide_False by done. rewrite Hcf.
    destruct (Hfuel fuel ltac:(lia)) as (p & Hp & Hlast & Hstart & Hu' & Hkeep).
    exists p. split; [done|]. split; [done|]. split; [done|]. split.
    + intros _. apply Hkeep; [done | | done].
      rewrite dict_get_set. by rewrite decide_True.
    + intros k v Hk Hkv Hv. apply Hkeep; [done | | done].
      rewrite dict_get_set. destruct (decide (x = k)) as [->|]; [by rewrite Hv | done].
Qed.

(** C8, as the code has it: on a cost graph whose table holds no
    negative cost, for the maps returned by [dijkstra_search] from
    [start] and a cell [x] present in the cost map, [reconstruct_path]
    returns, given enough fuel for its loop, a cost profile whose last
    entry is [start] with cost 0 and whose entry for [x] is the
    recorded cost of [x]. *)
Theorem reconstruct_path_valid hex_range fuel g start hex_goal distance_goal cf cs x v :
  nonneg_costs g ->
  dijkstra_search hex_range fuel g start hex_goal distance_goal = Returned (cf, cs) ->
  cs !! x = Some v ->
  exists fuel0, forall fuel', (fuel0 <= fuel')%nat ->
    exists p, reconstruct_path fuel' cf cs start x = Returned p
      /\ last p = Some (start, 0)
      /\ dict_get p start = Some 0
      /\ dict_get p x = Some v.
Proof.
  intros Hnn Hret Hx.
  destruct (search_returned _ _ _ _ _ _ _ _ Hret) as (c & Hvis & _ & <- & <- & _).
  destruct (chained_visits hex_range g start hex_goal distance_goal Hnn c Hvis) as [I Hch].
  destruct (reconstruct_loop_chain _ _ start x (Hch x v Hx) []) as (fuel0 & Hfuel); [done|].
  exists fuel0. intros fuel' Hf.
  destruct (Hfuel fuel' Hf) as (p & Hp & Hlast & Hstart & Hxp & _).
  exists p. split; [done|]. split; [done|]. split; [done|].
  destruct (decide (x = start)) as [->|Hne].
  - rewrite Hstart. f_equal. pose proof (inv_start _ _ _ _ c I). congruence.
  - rewrite (Hxp Hne), Hx. done.
Qed.

(** ** Termination of the search under a ceiling *)

Lemma run_steps hex_range g hex_goal distance_goal k fuel c c' :
  steps hex_range k g hex_goal distance_goal c = Some c' ->
  run hex_range (k + fuel) g hex_goal distance_goal c
  = run hex_range fuel g hex_goal distance_goal c'.
Proof.
  revert c. induction k as [|k IH]; intros c; simpl; [by intros [= ->]|].
  destruct (step hex_range g hex_goal distance_goal c); try done. apply IH.
Qed.

Lemma run_mono hex_range g hex_goal distance_goal fuel fuel' c r :
  run hex_range fuel g hex_goal distance_goal c = Returned r -> (fuel <= fuel')%nat ->
  run hex_range fuel' g hex_goal distance_goal c = Returned r.
Proof.
  revert fuel' c. induction fuel as [|fuel IH]; intros fuel' c; simpl; [done|].
  intros H Hle. destruct fuel' as [|fuel']; [lia|]. simpl.
  destruct (step hex_range g hex_goal distance_goal c); try done.
  apply IH; [done | lia].
Qed.

Lemma cost_at_least cmin g x y : costs_at_least cmin g -> cmin <= cost g x y.
Proof.
  intros [H20 H]. unfold cost. destruct (costs g !! x) as [r|] eqn:E; simpl.
  - exact (map_Forall_lookup_1 _ _ _ _ H E).
  - by rewrite lookup_empty.
Qed.

Lemma costs_at_least_nonneg cmin g : 0 < cmin -> costs_at_least cmin g -> nonneg_costs g.
Proof.
  intros Hc [_ H]. unfold nonneg_costs. eapply map_Forall_impl; [exact H|].
  simpl. intros _ r Hr. lia.
Qed.

Lemma sum_list_with_le {A} (f h : A -> nat) l :
  (forall x, (f x <= h x)%nat) -> (sum_list_with f l <= sum_list_with h l)%nat.
Proof. intros H. induction l as [|a l IH]; simpl; [lia|]. pose proof (H a). lia. Qed.

Lemma sum_list_with_lt {A} (f h : A -> nat) l y :
  (forall x, (f x <= h x)%nat) -> y ∈ l -> (f y < h y)%nat ->
  (sum_list_with f l < sum_list_with h l)%nat.
Proof.
  intros H Hy Hlt. induction l as [|a l IH]; simpl; [inversion Hy|].
  apply elem_of_cons in Hy as [<-|Hy].
  - pose proof (sum_list_with_le f h l H). lia.
  - pose proof (H a). specialize (IH Hy). lia.
Qed.

Lemma pot_insert_le K cs y nc x :
  0 <= nc -> (forall old, cs !! y = Some old -> nc < old) ->
  (pot K (<[ y := nc ]> cs) x <= pot K cs x)%nat.
Proof.
  intros H0 Hold. unfold pot. destruct (decide (y = x)) as [->|Hne].
  - rewrite lookup_insert_eq. destruct (cs !! x) as [old|] eqn:E; [|lia].
    pose proof (Hold _ eq_refl). lia.
  - rewrite lookup_insert_ne by done. lia.
Qed.

Lemma pot_insert_lt K cs y nc :
  0 <= nc -> (forall old, cs !! y = Some old -> nc < old) -> (Z.to_nat nc < K)%nat ->
  (pot K (<[ y := nc ]> cs) y < pot K cs y)%nat.
Proof.
  intros H0 Hold HK. unfold pot. rewrite lookup_insert_eq.
  destruct (cs !! y) as [old|] eqn:E; [|lia].
  pose proof (Hold _ eq_refl). lia.
Qed.

Section Termination.

Variable hex_range : string -> nat -> list string.
Variable g : H3CostGraph.
Variable start : string.
Variable C : Z.
Variable cmin : Z.
Hypothesis cmin_pos : 0 < cmin.
Hypothesis bounded : costs_at_least cmin g.

Local Abbreviation nbrs := (neighbors hex_range g).
Local Abbreviation step' := (step hex_range g None (Some C)).
Local Abbreviation steps' k := (steps hex_range k g None (Some C)).
Local Abbreviation run' k := (run hex_range k g None (Some C)).
Local Abbreviation ball := (ball hex_range g start).
Local Abbreviation measure' := (measure hex_range g start C).
Local Abbreviation term_inv := (term_inv hex_range g start C cmin).
Local Abbreviation ti_search := (ti_search hex_range g start C cmin).
Local Abbreviation ti_depth := (ti_depth hex_range g start C cmin).
Local Abbreviation ti_current := (ti_current hex_range g start C cmin).

Lemma ball_mono d k x : x ∈ ball d -> (d <= k)%nat -> x ∈ ball k.
Proof.
  intros Hx Hle. induction Hle as [|k _ IH]; [done|].
  simpl. apply elem_of_app. by left.
Qed.

Lemma ball_step d x y : x ∈ ball d -> y ∈ nbrs x -> y ∈ ball (S d).
Proof.
  intros Hx Hy. simpl. apply elem_of_app. right.
  apply list_elem_of_In, in_flat_map. exists x.
  split; by apply list_elem_of_In.
Qed.

Lemma term_inv_init : term_inv (init_config start).
Proof.
  split.
  - apply search_inv_init.
  - simpl. intros x v H. apply lookup_singleton_Some in H as [<- <-].
    exists O. split; [left | lia].
  - intros x todo H. discriminate H.
Qed.

Lemma term_relax c x y todo v fr :
  term_inv c -> at_pc c = InFor x (y :: todo) ->
  cost_so_far c !! x = Some v ->
  improves (cost_so_far c) y (v + cost g x y) = true ->
  search_inv hex_range g start (Some C)
    (Config fr (<[ y := Some x ]> (came_from c))
            (<[ y := v + cost g x y ]> (cost_so_far c)) (InFor x todo)) ->
  term_inv (Config fr (<[ y := Some x ]> (came_from c))
                   (<[ y := v + cost g x y ]> (cost_so_far c)) (InFor x todo))
  /\ (forall z, (pot (Z.to_nat C) (<[ y := (v + cost g x y)%Z ]> (cost_so_far c)) z
                <= pot (Z.to_nat C) (cost_so_far c) z)%nat)
  /\ (v + cost g x y < C ->
      y ∈ ball (Z.to_nat C) /\
      (pot (Z.to_nat C) (<[ y := (v + cost g x y)%Z ]> (cost_so_far c)) y
         < pot (Z.to_nat C) (cost_so_far c) y)%nat).
Proof.
  intros T Hpc Hx Hi I'. set (nc := v + cost g x y) in *.
  pose proof (costs_at_least_nonneg cmin g cmin_pos bounded) as nonneg.
  pose proof (cost_at_least cmin g x y bounded) as Hc.
  assert (Hv0 : 0 <= v) by (eapply (inv_cost_nonneg hex_range g start (Some C) nonneg c); [apply T | done]).
  assert (Hold : forall old, cost_so_far c !! y = Some old -> nc < old).
  { intros old Ho. apply improves_spec in Hi as [Hi|(o & Hi & ?)]; [congruence|].
    assert (o = old) by congruence. lia. }
  assert (Hy : y ∈ nbrs x).
  { apply (inv_todo _ _ _ _ c (ti_search c T) x (y :: todo)); [done | left]. }
  destruct (ti_depth c T x v Hx) as (d & Hd & Hdv).
  split; [|split].
  - split; [done | |].
    + simpl. intros z vz. destruct (decide (y = z)) as [->|Hne].
      * rewrite lookup_insert_eq. intros [= <-]. exists (S d).
        split; [by apply (ball_step d x)|]. unfold nc. nia.
      * rewrite lookup_insert_ne by done. apply T.
    + simpl. intros z todo' [= <- <-]. destruct (decide (y = x)) as [->|Hne].
      * rewrite lookup_insert_eq. eauto.
      * rewrite lookup_insert_ne by done. eauto.
  - intros z. apply pot_insert_le; [unfold nc; lia | done].
  - intros HC. split.
    + apply (ball_mono (S d)); [by apply (ball_step d x)|]. unfold nc in HC. nia.
    + apply pot_insert_lt; [unfold nc; lia | done | unfold nc in *; lia].
Qed.

(** A step keeps the invariant and does not raise the measure; the
    step that pops a cell lowers it. *)
Lemma term_step c c' :
  term_inv c -> step' c = Next c' ->
  term_inv c' /\ (measure' c' <= measure' c)%nat
  /\ (at_pc c = AtWhile -> (measure' c' < measure' c)%nat)
  /\ (forall x y todo, at_pc c = InFor x (y :: todo) -> at_pc c' = InFor x todo)
  /\ (forall x, at_pc c = InFor x [] -> at_pc c' = AtWhile).
Proof.
  intros T H.
  pose proof (costs_at_least_nonneg cmin g cmin_pos bounded) as nonneg.
  pose proof (search_inv_step hex_range g start None (Some C) nonneg c c' (ti_search c T) H) as I'.
  destruct (step_next_cases _ _ _ _ _ _ H) as
    [(x & q & Hpc & Hg & _ & E) | [(x & Hpc & E) | [(x & y & todo & v & Hpc & Hx & Hi & E)
     | [(x & y & todo & v & Hpc & Hx & Hi & Hp & E)
       | (x & y & todo & v & Hpc & Hx & Hi & Hp & E)]]]]; rewrite E in *.
  - destruct (get_spec _ _ _ Hg) as (p & Hp & _ & _ & _ & Hlen).
    split; [|split; [|split; [|split]]].
    + split; [done | apply T |]. simpl. intros z todo [= <- <-].
      destruct (inv_frontier _ _ _ _ c (ti_search c T) _ Hp) as (v & Hv & _). eauto.
    + unfold measure. simpl. lia.
    + intros _. unfold measure. simpl. lia.
    + intros ? ? ? Hpc'. congruence.
    + intros ? Hpc'. congruence.
  - split; [|split; [|split; [|split]]].
    + split; [done | apply T |]. intros z todo Hz. discriminate Hz.
    + unfold measure. simpl. lia.
    + intros Hpc'. congruence.
    + intros ? ? ? Hpc'. congruence.
    + done.
  - split; [|split; [|split; [|split]]].
    + split; [done | apply T |]. simpl. intros z todo' [= <- <-]. eauto.
    + unfold measure. simpl. lia.
    + intros Hpc'. congruence.
    + intros ? ? ? Hpc'. rewrite Hpc in Hpc'. by injection Hpc' as <- <- <-.
    + intros ? Hpc'. congruence.
  - destruct (term_relax c x y todo v _ T Hpc Hx Hi I') as (T' & Hle & _).
    split; [|split; [|split; [|split]]].
    + done.
    + unfold measure, potential. simpl.
      pose proof (sum_list_with_le _ _ (ball (Z.to_nat C)) Hle). lia.
    + intros Hpc'. congruence.
    + intros ? ? ? Hpc'. rewrite Hpc in Hpc'. by injection Hpc' as <- <- <-.
    + intros ? Hpc'. congruence.
  - destruct (term_relax c x y todo v _ T Hpc Hx Hi I') as (T' & Hle & Hlt).
    assert (HC : v + cost g x y < C) by (unfold pruned in Hp; lia).
    destruct (Hlt HC) as [Hy Hpot].
    split; [|split; [|split; [|split]]].
    + done.
    + unfold measure, potential. simpl.
      pose proof (sum_list_with_lt _ _ (ball (Z.to_nat C)) y Hle Hy Hpot). lia.
    + intros Hpc'. congruence.
    + intros ? ? ? Hpc'. rewrite Hpc in Hpc'. by injection Hpc' as <- <- <-.
    + intros ? Hpc'. congruence.
Qed.

(** No step raises. *)
Lemma term_progress c :
  term_inv c -> (exists c', step' c = Next c') \/ (exists r, step' c = Halt r).
Proof.
  intros T. unfold step, relax. destruct (at_pc c) as [|x [|y todo]] eqn:Hpc.
  - destruct (empty (frontier c)) eqn:Ee; [right; eauto|].
    destruct (get_nonempty _ Ee) as (x & q & ->). simpl. left; eauto.
  - left; eauto.
  - destruct (ti_current c T x (y :: todo) Hpc) as [v ->]. cbv zeta.
    destruct (improves _ _ _); [destruct (pruned _ _)|]; left; eauto.
Qed.

(** The [for] loop runs to its end. *)
Lemma for_loop_runs todo : forall x c,
  term_inv c -> at_pc c = InFor x todo ->
  exists k c', steps' k c = Some c' /\ at_pc c' = AtWhile /\ term_inv c'
    /\ (measure' c' <= measure' c)%nat.
Proof.
  induction todo as [|y todo IH]; intros x c T Hpc.
  - destruct (term_progress c T) as [(c' & Hs)|(r & Hs)].
    + destruct (term_step c c' T Hs) as (T' & Hle & _ & _ & Hend).
      exists 1%nat, c'. simpl. rewrite Hs.
      split; [done|]. split; [eauto|]. split; done.
    + destruct (step_halt _ _ _ _ _ _ Hs) as [_ Hw]. congruence.
  - destruct (term_progress c T) as [(c1 & Hs)|(r & Hs)].
    + destruct (term_step c c1 T Hs) as (T1 & Hle & _ & Hnext & _).
      destruct (IH x c1 T1 (Hnext _ _ _ Hpc)) as (k & c' & Hk & Hw & T' & Hle').
      exists (S k), c'. simpl. rewrite Hs.
      split; [done|]. split; [done|]. split; [done | lia].
    + destruct (step_halt _ _ _ _ _ _ Hs) as [_ Hw]. congruence.
Qed.

Lemma while_loop_returns n : forall c,
  (measure' c <= n)%nat -> term_inv c -> at_pc c = AtWhile ->
  exists fuel r, run' fuel c = Returned r.
Proof.
  induction n as [|n IH]; intros c Hm T Hpc;
    (destruct (term_progress c T) as [(c1 & Hs)|(r & Hs)];
      [|exists 1%nat, r; simpl; by rewrite Hs]);
    destruct (term_step c c1 T Hs) as (T1 & _ & Hlt & _ & _);
    specialize (Hlt Hpc); [lia|].
  destruct (step_next_cases _ _ _ _ _ _ Hs) as
    [(x & q & _ & _ & _ & E) | [(x & Hpc' & _) | [(x & y & todo & v & Hpc' & _)
     | [(x & y & todo & v & Hpc' & _) | (x & y & todo & v & Hpc' & _)]]]];
    try congruence.
  assert (Hpc1 : at_pc c1 = InFor x (nbrs x)) by (by rewrite E).
  destruct (for_loop_runs _ x c1 T1 Hpc1) as (k & c2 & Hk & Hw & T2 & Hle).
  destruct (IH c2 ltac:(lia) T2 Hw) as (fuel & r & Hr).
  exists (S (k + fuel)), r. simpl. rewrite Hs. by rewrite (run_steps _ _ _ _ k fuel c1 c2).
Qed.

End Termination.

(** C10: on a graph all of whose costs are at least a positive
    constant, [dijkstra_search] called with a ceiling [C] and no goal
    cell does not run for ever: from some amount of fuel on, every
    amount gives the same outcome, which is a return of the two maps
    when [C] is not 0 (with [C = 0] the assertion rejects the call). *)
Theorem dijkstra_ceiling_terminates hex_range g start C cmin :
  0 < cmin -> costs_at_least cmin g ->
  exists fuel0 o,
    o <> OutOfFuel
    /\ (C <> 0 -> exists r, o = Returned r)
    /\ forall fuel, (fuel0 <= fuel)%nat ->
         dijkstra_search hex_range fuel g start None (Some C) = o.
Proof.
  intros Hc Hb. unfold dijkstra_search. simpl.
  destruct (Z.eqb_spec C 0) as [->|HC]; simpl.
  - exists O, (Raised AssertionError). repeat split; done.
  - destruct (while_loop_returns hex_range g start C cmin Hc Hb _ (init_config start)
                (le_n _) (term_inv_init hex_range g start C cmin) eq_refl) as (fuel0 & r & Hr).
    exists fuel0, (Returned r). split; [done|]. split; [eauto|].
    intros fuel Hf. by apply (run_mono _ _ _ _ fuel0).
Qed.

(** ** The travel-time query *)

Section QueryFacts.

Variable hex_range : string -> nat -> list string.
Variable coord : Type.
Variable geo_to_h3 : coord -> coord -> Z -> string.
Variable DATA_DIR : string.

Local Abbreviation query := (calculate_travel_time hex_range coord geo_to_h3 DATA_DIR).

(** Every call runs the search, whatever the cache holds. *)
Lemma query_counts_search fuel g w start goal distance_goal hex_res :
  searches (query fuel g w start goal distance_goal hex_res).2 = S (searches w).
Proof.
  unfold calculate_travel_time. cbv zeta.
  destruct (dijkstra_search _ _ _ _ _ _) as [[cf cs]| |]; simpl; try done.
  destruct (reconstruct_path _ _ _ _ _) as [p| |]; simpl; try done.
  rewrite lookup_singleton_eq. simpl.
  by destruct (costs_of _ _).
Qed.

(** The outcome of a call does not depend on the cache or the files
    it starts from. *)
Lemma query_outcome_stateless fuel g w w' start goal distance_goal hex_res :
  (query fuel g w start goal distance_goal hex_res).1
  = (query fuel g w' start goal distance_goal hex_res).1.
Proof.
  unfold calculate_travel_time. cbv zeta.
  destruct (dijkstra_search _ _ _ _ _ _) as [[cf cs]| |]; simpl; try done.
  destruct (reconstruct_path _ _ _ _ _) as [p| |]; simpl; try done.
  rewrite !lookup_singleton_eq. simpl.
  by destruct (costs_of _ _).
Qed.

(** The ceiling does not reach the search: the cache and the files a
    call leaves are the same for any two ceilings. *)
Lemma query_search_ignores_ceiling fuel g w start goal d1 d2 hex_res :
  (query fuel g w start goal d1 hex_res).2 = (query fuel g w start goal d2 hex_res).2.
Proof.
  unfold calculate_travel_time. cbv zeta.
  destruct (dijkstra_search _ _ _ _ _ _) as [[cf cs]| |]; simpl; try done.
  destruct (reconstruct_path _ _ _ _ _) as [p| |]; simpl; try done.
  rewrite !lookup_singleton_eq. simpl.
  by destruct (costs_of _ _).
Qed.

(** When the search returns without a cost for the goal cell, the
    call raises [KeyError] from [reconstruct_path]. *)
Lemma query_goal_absent fuel g w start goal distance_goal hex_res cf cs :
  dijkstra_search hex_range fuel g (geo_to_h3 start.1 start.2 hex_res)
    (Some (geo_to_h3 goal.1 goal.2 hex_res)) None = Returned (cf, cs) ->
  cs !! geo_to_h3 goal.1 goal.2 hex_res = None ->
  (query fuel g w start goal distance_goal hex_res).1 = Raised KeyError.
Proof.
  intros Hret Hgoal. unfold calculate_travel_time. cbv zeta. rewrite Hret.
  destruct (search_returned _ _ _ _ _ _ _ _ Hret) as (c & Hvis & _ & Hcf & Hcs & _).
  destruct (same_keys_visits _ _ _ _ _ _ Hvis) as [Hdom Hstart].
  rewrite Hcf, Hcs in Hdom. rewrite Hcs in Hstart.
  assert (Hne : geo_to_h3 goal.1 goal.2 hex_res <> geo_to_h3 start.1 start.2 hex_res).
  { intros E. rewrite E in Hgoal. apply elem_of_dom in Hstart as [v Hv]. congruence. }
  assert (Hcfg : cf !! geo_to_h3 goal.1 goal.2 hex_res = None).
  { apply not_elem_of_dom. rewrite Hdom. by apply not_elem_of_dom. }
  destruct fuel as [|fuel].
  { unfold dijkstra_search in Hret. simpl in Hret. by destruct (_ || _). }
  unfold reconstruct_path. simpl. rewrite decide_False by done. by rewrite Hcfg.
Qed.

End QueryFacts.

(** ** The definitions at work on the small grids *)

(** C2: the ceiling given to [calculate_travel_time] does not bound
    the search.  On the row of four cells of cost 1, from [a] to [d]
    with ceiling 1, the call returns 3: the surface it writes holds
    [c] at 2 and [d] at 3, past the ceiling, while the search run with
    [distance_goal = 1] stops at [b] and never records [c] or [d]. *)
Theorem query_ceiling_not_applied :
  (calculate_travel_time Toy.line string Toy.snap "data" 100 Toy.g1 Toy.w0
     ("a", "") ("d", "") 1 6).1 = Returned 3
  /\ (exists surface,
       files (calculate_travel_time Toy.line string Toy.snap "data" 100 Toy.g1 Toy.w0
                ("a", "") ("d", "") 1 6).2 !! "data/hex_isochrone_a.gz"%string
       = Some surface
       /\ costs_of surface "c" = [2] /\ costs_of surface "d" = [3])
  /\ dijkstra_search Toy.line 100 Toy.g1 "a" (Some "d"%string) (Some 1)
     = Returned (<[ "a"%string := None ]> {[ "b"%string := Some "a"%string ]},
                 <[ "a"%string := 0 ]> {[ "b"%string := 1 ]}).
Proof.
  split; [vm_compute; reflexivity|]. split; [|vm_compute; reflexivity].
  eexists. split; [vm_compute; reflexivity|]. split; vm_compute; reflexivity.
Qed.

(** C3: a second call with the same origin and goal, made while the
    cache holds the surface of the first, gives the same result and
    runs the search again: the count of searches goes from 1 to 2. *)
Theorem query_recomputes_when_warm :
  exists w1 w2,
    calculate_travel_time Toy.line string Toy.snap "data" 100 Toy.g1 Toy.w0
      ("a", "") ("d", "") 3000 6 = (Returned 3, w1)
    /\ is_Some (temp_df_cache w1 !! "data/hex_isochrone_a.gz"%string)
    /\ searches w1 = 1%nat
    /\ calculate_travel_time Toy.line string Toy.snap "data" 100 Toy.g1 w1
         ("a", "") ("d", "") 3000 6 = (Returned 3, w2)
    /\ searches w2 = 2%nat.
Proof.
  eexists. eexists.
  split; [vm_compute; reflexivity|]. split; [vm_compute; eauto|].
  split; [reflexivity|]. split; [vm_compute; reflexivity | reflexivity].
Qed.

(** C4: on a grid where the goal cell cannot be reached, the search
    returns a cost surface without the goal, and the call then raises
    [KeyError] instead of returning the ceiling. *)
Theorem query_unreachable_goal_raises :
  dijkstra_search Toy.isolated 100 Toy.g1 "a" (Some "d"%string) None
    = Returned ({[ "a"%string := None ]}, {[ "a"%string := 0 ]})
  /\ ({[ "a"%string := 0 ]} : gmap string Z) !! "d"%string = None
  /\ (calculate_travel_time Toy.isolated string Toy.snap "data" 100 Toy.g1 Toy.w0
        ("a", "") ("d", "") 1 6).1 = Raised KeyError.
Proof. repeat split; vm_compute; reflexivity. Qed.

(** The relaxation from [a] (cost 5) into [b] (cost 7) records 5 for
    [b], not 7. *)
Lemma entered_cell_not_charged : ~ charges_entered_cell.
Proof.
  intros H.
  pose (c := Config pq_new {[ "a"%string := None ]} {[ "a"%string := 0 ]}
               (InFor "a" ["b"%string])).
  pose (c' := Config pq_new (<[ "b"%string := Some "a"%string ]> {[ "a"%string := None ]})
                (<[ "b"%string := 5 ]> {[ "a"%string := 0 ]}) (InFor "a" [])).
  assert (E : relax Toy.g (Some 3) "a" "b" [] c = Next c') by reflexivity.
  assert (E1 : cost_so_far c !! "a"%string = Some 0) by reflexivity.
  assert (E2 : improves (cost_so_far c) "b" (0 + cost Toy.g "a" "b") = true) by reflexivity.
  pose proof (H Toy.g (Some 3) "a"%string "b"%string [] c c' 0 E1 E2 E) as F.
  vm_compute in F. discriminate F.
Qed.

(** Under the ceiling 5, [n] is first relaxed from [a] at 11 and
    recorded with predecessor [a]; the relaxation from [b] at 3 then
    replaces both, and the returned maps hold 3 and [b]. *)
Lemma pruned_cost_overwritten : ~ pruned_record_kept_to_return Toy3.fork.
Proof.
  intros H.
  assert (Hvis : visits Toy3.fork Toy3.g_fork "s" None (Some 5) Toy3.c_fork).
  { exists 7%nat. vm_compute. reflexivity. }
  assert (Hret : dijkstra_search Toy3.fork 100 Toy3.g_fork "s" None (Some 5)
                 = Returned (Toy3.cf_fork, Toy3.cs_fork)) by (vm_compute; reflexivity).
  assert (Hc : 5 <= 1 + cost Toy3.g_fork "a" "n") by (vm_compute; discriminate).
  destruct (H 100%nat Toy3.g_fork "s"%string None 5 Toy3.c_fork "a"%string "n"%string []
              1 Toy3.cf_fork Toy3.cs_fork Hvis eq_refl eq_refl eq_refl Hc Hret) as [F _].
  vm_compute in F. discriminate F.
Qed.

(** A search given both a goal cell and a ceiling is accepted. *)
Lemma both_goals_accepted : ~ accepted_only_with_exactly_one Toy.line.
Proof.
  intros H.
  destruct (H 100%nat Toy.g "a"%string (Some "d"%string) (Some 6)) as [[_ E]|[E _]];
    [vm_compute; discriminate | discriminate E | discriminate E].
Qed.

Lemma dijkstra_optimal_witness :
  nonneg_costs Toy.g
  /\ dijkstra_search Toy.line 100 Toy.g "a" (Some "d"%string) None
     = Returned (Toy.cf_line, Toy.cs_line)
  /\ Toy.cs_line !! "a"%string = Some 0
  /\ forall x, popped Toy.line Toy.g "a" (Some "d"%string) None x ->
       exists w, Toy.cs_line !! x = Some w /\ least_cost Toy.line Toy.g "a" x w.
Proof.
  assert (H1 : nonneg_costs Toy.g).
  { apply (bool_decide_unpack _). vm_compute. reflexivity. }
  assert (H2 : dijkstra_search Toy.line 100 Toy.g "a" (Some "d"%string) None
               = Returned (Toy.cf_line, Toy.cs_line)).
  { vm_compute. reflexivity. }
  split; [exact H1|]. split; [exact H2|].
  exact (dijkstra_optimal Toy.line 100 Toy.g "a" (Some "d"%string) None
           Toy.cf_line Toy.cs_line H1 H2).
Defined.

Lemma relax_charges_current_witness :
  ({[ "a"%string := 0 ]} : gmap string Z) !! "a"%string = Some 0
  /\ improves {[ "a"%string := 0 ]} "b" (0 + cost Toy.g "a" "b") = true
  /\ exists c', relax Toy.g None "a" "b" [] (init_config "a") = Next c'
       /\ cost_so_far c' !! "b"%string = Some (0 + table_cost Toy.g "a")
       /\ cost Toy.g "a" "b" = table_cost Toy.g "a"
       /\ forall next', cost Toy.g "a" next' = cost Toy.g "a" "b".
Proof.
  split; [reflexivity|]. split; [reflexivity|].
  apply (relax_charges_current Toy.g None "a" "b" [] (init_config "a") 0); reflexivity.
Defined.

Lemma ceiling_respected_witness :
  cost_so_far (init_config "a") !! "a"%string = Some 0
  /\ improves (cost_so_far (init_config "a")) "b" (0 + cost Toy.g "a" "b") = true
  /\ 5 <= 0 + cost Toy.g "a" "b"
  /\ relax Toy.g (Some 5) "a" "b" [] (init_config "a") =
       Next (Config (frontier (init_config "a"))
                    (<[ "b"%string := Some "a"%string ]> (came_from (init_config "a")))
                    (<[ "b"%string := 0 + cost Toy.g "a" "b" ]> (cost_so_far (init_config "a")))
                    (InFor "a" [])).
Proof.
  assert (H1 : cost_so_far (init_config "a") !! "a"%string = Some 0) by reflexivity.
  assert (H2 : improves (cost_so_far (init_config "a")) "b" (0 + cost Toy.g "a" "b") = true)
    by reflexivity.
  assert (H3 : 5 <= 0 + cost Toy.g "a" "b") by (vm_compute; discriminate).
  split; [exact H1|]. split; [exact H2|]. split; [exact H3|].
  exact (proj1 (proj2 (proj2 (ceiling_respected Toy.line Toy.g "a" None 5)))
           (init_config "a") "a"%string "b"%string [] 0 H1 H2 H3).
Defined.

Lemma search_precondition_witness :
  dijkstra_search Toy.line 100 Toy.g "a" None None = Raised AssertionError
  /\ dijkstra_search Toy.line 100 Toy.g "a" (Some "d"%string) (Some 6) <> Raised AssertionError.
Proof.
  split.
  - apply (proj1 (search_precondition Toy.line 100 Toy.g "a" None None)). split; reflexivity.
  - apply (proj2 (search_precondition Toy.line 100 Toy.g "a" (Some "d"%string) (Some 6))).
    left. reflexivity.
Defined.

Lemma reconstruct_path_valid_witness :
  nonneg_costs Toy.g
  /\ dijkstra_search Toy.line 100 Toy.g "a" (Some "d"%string) None
     = Returned (Toy.cf_line, Toy.cs_line)
  /\ Toy.cs_line !! "d"%string = Some 13
  /\ exists fuel0, forall fuel', (fuel0 <= fuel')%nat ->
       exists p, reconstruct_path fuel' Toy.cf_line Toy.cs_line "a" "d" = Returned p
         /\ last p = Some ("a"%string, 0)
         /\ dict_get p "a" = Some 0
         /\ dict_get p "d" = Some 13.
Proof.
  assert (H1 : nonneg_costs Toy.g).
  { apply (bool_decide_unpack _). vm_compute. reflexivity. }
  assert (H2 : dijkstra_search Toy.line 100 Toy.g "a" (Some "d"%string) None
               = Returned (Toy.cf_line, Toy.cs_line)).
  { vm_compute. reflexivity. }
  assert (H3 : Toy.cs_line !! "d"%string = Some 13) by reflexivity.
  split; [exact H1|]. split; [exact H2|]. split; [exact H3|].
  exact (reconstruct_path_valid Toy.line 100 Toy.g "a" (Some "d"%string) None
           Toy.cf_line Toy.cs_line "d" 13 H1 H2 H3).
Defined.

Lemma same_keys_witness :
  dijkstra_search Toy.line 100 Toy.g "a" (Some "d"%string) None
    = Returned (Toy.cf_line, Toy.cs_line)
  /\ dom Toy.cf_line = dom Toy.cs_line
  /\ "a"%string ∈ dom Toy.cf_line /\ "a"%string ∈ dom Toy.cs_line.
Proof.
  assert (H : dijkstra_search Toy.line 100 Toy.g "a" (Some "d"%string) None
              = Returned (Toy.cf_line, Toy.cs_line)).
  { vm_compute. reflexivity. }
  split; [exact H|].
  exact (proj2 (proj2 (proj2 (proj2
           (came_from_cost_so_far_same_keys Toy.line Toy.g "a" (Some "d"%string) None))))
           100%nat Toy.cf_line Toy.cs_line H).
Defined.

Lemma dijkstra_ceiling_terminates_witness :
  0 < 1 /\ costs_at_least 1 Toy.g
  /\ exists fuel0 o,
       o <> OutOfFuel
       /\ (6 <> 0 -> exists r, o = Returned r)
       /\ forall fuel, (fuel0 <= fuel)%nat ->
            dijkstra_search Toy.line fuel Toy.g "a" None (Some 6) = o.
Proof.
  assert (H1 : 0 < 1) by lia.
  assert (H2 : costs_at_least 1 Toy.g).
  { split; [lia|]. apply (bool_decide_unpack _). vm_compute. reflexivity. }
  split; [exact H1|]. split; [exact H2|].
  exact (dijkstra_ceiling_terminates Toy.line Toy.g "a" 6 1 H1 H2).
Defined.

(** * Further facts *)

(** ** The priority queue *)

Lemma remove_first_perm m l : m ∈ l -> l ≡ₚ m :: remove_first m l.
Proof.
  induction l as [|b l IH]; simpl; intros H; [inversion H|].
  destruct (decide (m = b)) as [->|Hne]; [done|].
  apply elem_of_cons in H as [->|H]; [done|].
  rewrite (IH H) at 1. apply Permutation_swap.
Qed.

(** [get] takes out of the queue one entry of least priority and
    leaves the others; it has nothing to give exactly when the queue
    is empty. *)
Theorem get_pops_least q :
  (get q = None <-> empty q = true)
  /\ forall x q', get q = Some (x, q') ->
       exists p, elements q ≡ₚ (p, x) :: elements q'
         /\ forall e, e ∈ elements q -> p <= e.1.
Proof.
  split.
  - unfold get, heappop, empty. destruct (elements q); simpl; split; done.
  - unfold get, heappop. destruct q as [h]. simpl.
    destruct h as [|a l]; [done|]. intros x q' H. injection H as <- <-. simpl.
    set (m := heap_min a l).
    assert (Hm : m ∈ a :: l).
    { destruct (heap_min_elem a l) as [E|E]; fold m in E; [rewrite E; left | by right]. }
    exists m.1. destruct (heap_min_least a l) as [L1 L2]. fold m in L1, L2.
    split.
    + replace (m.1, m.2) with m by (by destruct m).
      apply (remove_first_perm m (a :: l) Hm).
    + intros e He. apply elem_of_cons in He as [->|He]; auto.
Qed.

Lemma put_get_roundtrip_aux q item priority :
  (forall e, e ∈ elements q -> priority < e.1) ->
  get (put q item priority) = Some (item, q).
Proof.
  intros H. unfold get, put, heappush, heappop. simpl.
  assert (Hmin : heap_min (priority, item) (elements q) = (priority, item)).
  { revert H. generalize (elements q). intros l. induction l as [|b l IH]; intros H; [done|].
    simpl. assert (Hb : priority < b.1) by (apply H; left).
    assert (E : entry_le (priority, item) b = true).
    { unfold entry_le. simpl. apply orb_true_iff. left. lia. }
    rewrite E. apply IH. intros e He. apply H. by right. }
  rewrite Hmin. simpl. rewrite decide_True by done. by destruct q.
Qed.

(** An item put with a priority below every priority of the queue is
    the next one [get] gives, and the queue is then as it was. *)
Theorem put_get_roundtrip q item priority :
  (forall e, e ∈ elements q -> priority < e.1) ->
  get (put q item priority) = Some (item, q).
Proof. apply put_get_roundtrip_aux. Qed.

(** ** Invariants that need no assumption on the costs *)

Lemma pruned_antitone distance_goal v v' :
  pruned distance_goal v = false -> v' <= v -> pruned distance_goal v' = false.
Proof. unfold pruned. destruct distance_goal; [|done]. lia. Qed.

Section LinkFacts.

Variable hex_range : string -> nat -> list string.
Variable g : H3CostGraph.
Variable start : string.
Variable hex_goal : option string.
Variable distance_goal : option Z.

Local Abbreviation nbrs := (neighbors hex_range g).
Local Abbreviation link_inv := (link_inv hex_range g start distance_goal).
Local Abbreviation li_frontier := (li_frontier hex_range g start distance_goal).
Local Abbreviation li_current := (li_current hex_range g start distance_goal).
Local Abbreviation li_path := (li_path hex_range g start distance_goal).
Local Abbreviation li_link := (li_link hex_range g start distance_goal).
Local Abbreviation li_none := (li_none hex_range g start distance_goal).

Lemma link_inv_init : link_inv (init_config start).
Proof.
  split; simpl.
  - intros e He. apply list_elem_of_singleton in He as ->. simpl.
    exists 0. rewrite lookup_singleton_eq. split; [done|]. split; [lia | by right].
  - intros x todo H. discriminate H.
  - intros x v H. apply lookup_singleton_Some in H as [<- <-]. constructor.
  - intros x u H. apply lookup_singleton_Some in H as [_ H]. discriminate H.
  - intros x H. by apply lookup_singleton_Some in H as [<- _].
Qed.

Lemma link_inv_relax c x y todo v fr :
  link_inv c -> at_pc c = InFor x (y :: todo) ->
  cost_so_far c !! x = Some v ->
  improves (cost_so_far c) y (v + cost g x y) = true ->
  (forall e, e ∈ elements fr -> e ∈ elements (frontier c) \/
      (pruned distance_goal (v + cost g x y) = false /\ e = (v + cost g x y, y))) ->
  link_inv (Config fr (<[ y := Some x ]> (came_from c))
                   (<[ y := v + cost g x y ]> (cost_so_far c)) (InFor x todo)).
Proof.
  intros I Hpc Hx Hi Hfr. set (nc := v + cost g x y) in *.
  assert (Hold : forall old, cost_so_far c !! y = Some old -> nc < old).
  { intros old Ho. apply improves_spec in Hi as [Hi|(o & Hi & ?)]; [congruence|].
    assert (o = old) by congruence. lia. }
  destruct (li_current c I x (y :: todo) Hpc) as [(v0 & Hv0 & Hpx) Htodo].
  assert (v0 = v) as -> by congruence.
  assert (Hy : y ∈ nbrs x) by (apply Htodo; left).
  (* a cost that was below the ceiling, or of [start], stays so *)
  assert (Hkeep : forall z vz, cost_so_far c !! z = Some vz ->
            pruned distance_goal vz = false \/ z = start ->
            exists vz', <[ y := nc ]> (cost_so_far c) !! z = Some vz' /\ vz' <= vz
              /\ (pruned distance_goal vz' = false \/ z = start)).
  { intros z vz Hz Hp. destruct (decide (y = z)) as [->|Hne].
    - rewrite lookup_insert_eq. exists nc. pose proof (Hold _ Hz).
      split; [done|]. split; [lia|].
      destruct Hp as [Hp|Hp]; [left; apply (pruned_antitone _ vz); [done | lia] | by right].
    - rewrite lookup_insert_ne by done. exists vz. split; [done|]. split; [lia | done]. }
  split; simpl.
  - intros e He. destruct (Hfr e He) as [He'|[Hp ->]].
    + destruct (li_frontier c I e He') as (ve & Hve & Hle & Hpe).
      destruct (Hkeep _ _ Hve Hpe) as (ve' & Hve' & Hle' & Hpe').
      exists ve'. split; [done|]. split; [lia | done].
    + simpl. rewrite lookup_insert_eq. exists nc. split; [done|]. split; [lia | by left].
  - intros z todo' [= <- <-]. split.
    + destruct (Hkeep _ _ Hx Hpx) as (vx' & Hvx' & _ & Hpx'). eauto.
    + intros y' Hy'. apply Htodo. by right.
  - intros z vz. destruct (decide (y = z)) as [->|Hne].
    + rewrite lookup_insert_eq. intros [= <-]. constructor; [|done].
      by apply (li_path c I).
    + rewrite lookup_insert_ne by done. apply I.
  - intros z u. destruct (decide (y = z)) as [->|Hne].
    + rewrite lookup_insert_eq. intros [= <-]. split; [done|].
      destruct (Hkeep _ _ Hx Hpx) as (vx' & Hvx' & Hle' & Hpx').
      exists nc, vx'. rewrite lookup_insert_eq. split; [done|]. split; [done|].
      split; [|done].
      destruct (decide (z = x)) as [->|Hne'].
      * rewrite lookup_insert_eq in Hvx'. injection Hvx' as <-.
        pose proof (Hold _ Hx). unfold nc in *. lia.
      * rewrite lookup_insert_ne in Hvx' by done. assert (vx' = v) as -> by congruence.
        unfold nc. lia.
    + rewrite lookup_insert_ne by done. intros Hz.
      destruct (li_link c I z u Hz) as (Hn & vz & vu & Hvz & Hvu & Hle & Hpu).
      split; [done|].
      destruct (Hkeep _ _ Hvu Hpu) as (vu' & Hvu' & Hle' & Hpu').
      exists vz, vu'. rewrite lookup_insert_ne by done.
      split; [done|]. split; [done|]. split; [lia | done].
  - intros z. destruct (decide (y = z)) as [->|Hne].
    + rewrite lookup_insert_eq. intros [=].
    + rewrite lookup_insert_ne by done. apply I.
Qed.

Lemma link_inv_step c c' :
  link_inv c -> step hex_range g hex_goal distance_goal c = Next c' -> link_inv c'.
Proof.
  intros I H.
  destruct (step_next_cases _ _ _ _ _ _ H) as
    [(x & q & Hpc & Hg & _ & E) | [(x & Hpc & E) | [(x & y & todo & v & Hpc & Hx & Hi & E)
     | [(x & y & todo & v & Hpc & Hx & Hi & Hp & E)
       | (x & y & todo & v & Hpc & Hx & Hi & Hp & E)]]]]; rewrite E.
  - destruct (get_spec _ _ _ Hg) as (p & Hp & _ & Hsub & _).
    split; simpl; try apply I.
    + intros e He. apply I. auto.
    + intros z todo [= <- <-]. split; [|done].
      destruct (li_frontier c I _ Hp) as (v & Hv & _ & Hpv). eauto.
  - split; simpl; try apply I. intros z todo Hz. discriminate Hz.
  - split; simpl; try apply I. intros z todo' [= <- <-].
    destruct (li_current c I x (y :: todo) Hpc) as [Hcur Htodo].
    split; [done|]. intros y' Hy'. apply Htodo. by right.
  - apply (link_inv_relax c x y todo v); try done. intros e He. by left.
  - apply (link_inv_relax c x y todo v); try done.
    intros e He. apply elem_put in He as [->|He]; [by right | by left].
Qed.

Lemma link_inv_visits c :
  visits hex_range g start hex_goal distance_goal c -> link_inv c.
Proof.
  intros [n Hn]. revert n c Hn. apply steps_invariant.
  - apply link_inv_init.
  - apply link_inv_step.
Qed.

(** Under the invariant no step raises. *)
Lemma link_inv_no_raise c e :
  link_inv c -> step hex_range g hex_goal distance_goal c <> Raise e.
Proof.
  intros I. unfold step, relax. destruct (at_pc c) as [|x [|y todo]] eqn:Hpc.
  - destruct (empty (frontier c)) eqn:Ee; [done|].
    destruct (get_nonempty _ Ee) as (x & q & ->). by destruct (at_goal hex_goal x).
  - done.
  - destruct (li_current c I x (y :: todo) Hpc) as [(v & -> & _) _]. cbv zeta.
    destruct (improves _ _ _); [destruct (pruned _ _)|]; done.
Qed.

Lemma run_no_raise fuel c e :
  link_inv c -> run hex_range fuel g hex_goal distance_goal c <> Raised e.
Proof.
  revert c. induction fuel as [|fuel IH]; intros c I; simpl; [done|].
  destruct (step hex_range g hex_goal distance_goal c) eqn:E.
  - apply IH. by apply (link_inv_step c).
  - done.
  - by apply link_inv_no_raise in E.
Qed.

End LinkFacts.

Lemma dijkstra_raises_only_assertion_aux hex_range fuel g start hex_goal distance_goal e :
  dijkstra_search hex_range fuel g start hex_goal distance_goal = Raised e ->
  e = AssertionError /\ truthy_str hex_goal = false /\ truthy_num distance_goal = false.
Proof.
  unfold dijkstra_search.
  destruct (truthy_str hex_goal) eqn:E1, (truthy_num distance_goal) eqn:E2; simpl;
    try (intros H; exfalso; revert H;
         apply (run_no_raise hex_range g start hex_goal distance_goal);
         apply link_inv_init).
  by intros [= <-].
Qed.

(** [dijkstra_search] raises nothing but the assertion error of its
    precondition: no [KeyError] from [cost_so_far[current]], no
    [IndexError] from the heap. *)
Theorem dijkstra_raises_only_assertion hex_range fuel g start hex_goal distance_goal e :
  dijkstra_search hex_range fuel g start hex_goal distance_goal = Raised e ->
  e = AssertionError /\ truthy_str hex_goal = false /\ truthy_num distance_goal = false.
Proof. apply dijkstra_raises_only_assertion_aux. Qed.

(** A cost, once recorded, stays recorded and never goes up: neither
    along the steps of the search nor up to the cost map it returns. *)
Theorem costs_never_increase hex_range fuel g start hex_goal distance_goal c x v :
  visits hex_range g start hex_goal distance_goal c ->
  cost_so_far c !! x = Some v ->
  (forall k c', steps hex_range k g hex_goal distance_goal c = Some c' ->
     exists v', cost_so_far c' !! x = Some v' /\ v' <= v)
  /\ (forall cf cs,
     dijkstra_search hex_range fuel g start hex_goal distance_goal = Returned (cf, cs) ->
     exists v', cs !! x = Some v' /\ v' <= v).
Proof.
  intros Hvis Hx. split.
  - intros k c' Hk.
    exact (steps_cost_decreases hex_range g hex_goal distance_goal k c c' x v Hk Hx).
  - intros cf cs Hret.
    destruct (visits_before_return _ _ _ _ _ _ _ _ _ Hvis Hret)
      as (k & c' & Hk & _ & _ & <- & _).
    exact (steps_cost_decreases hex_range g hex_goal distance_goal k c c' x v Hk Hx).
Qed.

(** Every cost of the returned cost map is the cost of a path of the
    grid from [start] to the cell, whatever the costs of the table. *)
Theorem recorded_cost_is_path_cost hex_range fuel g start hex_goal distance_goal cf cs x v :
  dijkstra_search hex_range fuel g start hex_goal distance_goal = Returned (cf, cs) ->
  cs !! x = Some v ->
  path hex_range g start x v.
Proof.
  intros Hret Hx.
  destruct (search_returned _ _ _ _ _ _ _ _ Hret) as (c & Hvis & _ & _ & <- & _).
  exact (li_path _ _ _ _ c (link_inv_visits _ _ _ _ _ c Hvis) x v Hx).
Qed.

(** In the returned maps a predecessor [u] of [x] is a cell of which
    [x] is a neighbour, and the cost of [u] plus the cost of leaving
    [u] is at most the cost of [x]; [u] is [start] or has a cost the
    ceiling does not prune; and only [start] can have [None] for
    predecessor. *)
Theorem predecessor_links hex_range fuel g start hex_goal distance_goal cf cs :
  dijkstra_search hex_range fuel g start hex_goal distance_goal = Returned (cf, cs) ->
  (forall x u, cf !! x = Some (Some u) ->
     x ∈ neighbors hex_range g u
     /\ exists vx vu, cs !! x = Some vx /\ cs !! u = Some vu
          /\ vu + cost g u x <= vx
          /\ (pruned distance_goal vu = false \/ u = start))
  /\ (forall x, cf !! x = Some None -> x = start).
Proof.
  intros Hret.
  destruct (search_returned _ _ _ _ _ _ _ _ Hret) as (c & Hvis & _ & <- & <- & _).
  pose proof (link_inv_visits _ _ _ _ _ c Hvis) as I.
  split; [apply (li_link _ _ _ _ c I) | apply (li_none _ _ _ _ c I)].
Qed.

(** ** What a search that returns has found *)

Lemma halt_cases hex_range g hex_goal distance_goal c r :
  step hex_range g hex_goal distance_goal c = Halt r ->
  elements (frontier c) = []
  \/ exists h q, hex_goal = Some h /\ get (frontier c) = Some (h, q).
Proof.
  unfold step, relax. destruct (at_pc c) as [|x [|y todo]]; try done.
  - unfold empty. destruct (elements (frontier c)) eqn:Ee; [by left|].
    destruct (get (frontier c)) as [[x q]|] eqn:Eg; [|done].
    unfold at_goal. destruct hex_goal as [h|]; [|done].
    case_bool_decide; [|done]. subst. intros _. right. eauto.
  - destruct (cost_so_far c !! x); [|done].
    destruct (improves _ _ _); [destruct (pruned _ _)|]; done.
Qed.

Lemma goal_search_exact_aux hex_range fuel g start goal cf cs :
  nonneg_costs g ->
  dijkstra_search hex_range fuel g start (Some goal) None = Returned (cf, cs) ->
  (forall v, cs !! goal = Some v -> least_cost hex_range g start goal v)
  /\ (cs !! goal = None -> forall w, ~ path hex_range g start goal w).
Proof.
  intros Hnn Hret.
  destruct (search_returned _ _ _ _ _ _ _ _ Hret) as (c & Hvis & Hpc & _ & <- & Hhalt).
  pose proof (search_inv_visits _ _ _ _ _ Hnn c Hvis) as I.
  destruct (halt_cases _ _ _ _ _ _ Hhalt) as [Hempty|(h & q & [= <-] & Hget)].
  - assert (Hall : forall w, path hex_range g start goal w ->
              exists v, cost_so_far c !! goal = Some v /\ v <= w).
    { intros w Hw.
      destruct (path_bounded_below _ _ _ _ Hnn c goal w I Hpc Hw)
        as [?|[(e & He & _)|(C & HC & _)]]; [done | | done].
      rewrite Hempty in He. inversion He. }
    split.
    + intros v Hv. split; [by apply (inv_path _ _ _ _ c I)|].
      intros w Hw. destruct (Hall w Hw) as (v' & Hv' & Hle).
      assert (v' = v) by congruence. lia.
    + intros Hnone w Hw. destruct (Hall w Hw) as (v' & Hv' & _). congruence.
  - destruct (popped_least _ _ _ _ Hnn c goal q I Hpc Hget) as (v & Hv & Hleast).
    split.
    + intros v' Hv'. assert (v' = v) by congruence. by subst.
    + intros Hnone. congruence.
Qed.

(** With a goal cell and no ceiling, on a cost graph without negative
    costs, a search that returns has settled the goal: a cost recorded
    for the goal is its least cost, and no cost recorded means that no
    path of the grid leads from [start] to the goal. *)
Theorem goal_search_exact hex_range fuel g start goal cf cs :
  nonneg_costs g ->
  dijkstra_search hex_range fuel g start (Some goal) None = Returned (cf, cs) ->
  (forall v, cs !! goal = Some v -> least_cost hex_range g start goal v)
  /\ (cs !! goal = None -> forall w, ~ path hex_range g start goal w).
Proof. apply goal_search_exact_aux. Qed.

(** With a ceiling [C] and no goal cell, on a cost graph without
    negative costs, the returned cost map is exact below the ceiling:
    every cell that some path reaches at a cost below [C] has its
    least cost recorded. *)
Theorem isochrone_exact hex_range fuel g start C cf cs x w :
  nonneg_costs g ->
  dijkstra_search hex_range fuel g start None (Some C) = Returned (cf, cs) ->
  path hex_range g start x w -> w < C ->
  exists v, cs !! x = Some v /\ v <= w /\ least_cost hex_range g start x v.
Proof.
  intros Hnn Hret Hw HC.
  destruct (search_returned _ _ _ _ _ _ _ _ Hret) as (c & Hvis & Hpc & _ & <- & Hhalt).
  pose proof (search_inv_visits _ _ _ _ _ Hnn c Hvis) as I.
  destruct (halt_cases _ _ _ _ _ _ Hhalt) as [Hempty|(h & q & [=] & _)].
  assert (Hall : forall w', path hex_range g start x w' -> w' < C ->
            exists v, cost_so_far c !! x = Some v /\ v <= w').
  { intros w' Hw' HC'.
    destruct (path_bounded_below _ _ _ _ Hnn c x w' I Hpc Hw')
      as [?|[(e & He & _)|(C' & [= <-] & ?)]]; [done | | lia].
    rewrite Hempty in He. inversion He. }
  destruct (Hall w Hw HC) as (v & Hv & Hle).
  exists v. split; [done|]. split; [done|].
  split; [by apply (inv_path _ _ _ _ c I)|].
  intros w' Hw'. destruct (decide (w' < C)) as [Hlt|Hge]; [|lia].
  destruct (Hall w' Hw' Hlt) as (v' & Hv' & Hle'). assert (v' = v) by congruence. lia.
Qed.

(** ** The profile built by [reconstruct_path] *)

Lemma dict_get_elem d k v : dict_get d k = Some v -> (k, v) ∈ d.
Proof.
  induction d as [|[k0 v0] d IH]; simpl; [done|].
  destruct (decide (k0 = k)) as [->|Hne].
  - intros [= ->]. left.
  - intros H. right. auto.
Qed.

Lemma dict_get_None d k : dict_get d k = None -> k ∉ d.*1.
Proof.
  induction d as [|[k0 v0] d IH]; simpl; [intros _ H; inversion H|].
  destruct (decide (k0 = k)) as [->|Hne]; [done|].
  intros H Hin. apply elem_of_cons in Hin as [->|Hin]; [done|]. by apply IH.
Qed.

Lemma dict_set_same d k v : dict_get d k = Some v -> dict_set d k v = d.
Proof.
  induction d as [|[k0 v0] d IH]; simpl; [done|].
  destruct (decide (k0 = k)) as [->|Hne].
  - by intros [= ->].
  - intros H. by rewrite IH.
Qed.

Section Profile.

Variable cf : gmap string (option string).
Variable cs : gmap string Z.
Variable start : string.

(** [cost_so_far.get(k, 0)] *)
Local Abbreviation got k := (default 0 (cs !! k)).
Local Abbreviation good_profile := (good_profile cs start).

Lemma good_profile_set path cur :
  good_profile path -> cur <> start ->
  good_profile (dict_set path cur (got cur))
  /\ ((dict_set path cur (got cur) = path /\ (cur, got cur) ∈ path)
      \/ (dict_set path cur (got cur) = path ++ [(cur, got cur)])).
Proof.
  intros [Hnd Hval] Hne. destruct (dict_get path cur) as [v|] eqn:E.
  - pose proof (dict_get_elem _ _ _ E) as Hin.
    destruct (Hval _ _ Hin) as [_ ->].
    rewrite (dict_set_same _ _ _ E). split; [done|]. by left.
  - rewrite (dict_set_fresh _ _ _ E). split; [|by right]. split.
    + rewrite fmap_app. apply NoDup_app. split; [done|]. split.
      * intros k Hk Hk'. apply list_elem_of_singleton in Hk'. subst.
        by apply (dict_get_None _ _ E).
      * apply NoDup_singleton.
    + intros k v Hin. apply elem_of_app in Hin as [Hin|Hin]; [by apply Hval|].
      apply list_elem_of_singleton in Hin as [= -> ->]. done.
Qed.

Lemma reconstruct_loop_shape fuel : forall cur path p,
  good_profile path ->
  reconstruct_loop fuel cf cs start cur path = Returned p ->
  exists rest, p = path ++ rest ++ [(start, 0)]
    /\ good_profile (path ++ rest)
    /\ (cur <> start -> (cur, got cur) ∈ path ++ rest)
    /\ (forall k v, (k, v) ∈ rest ->
          exists u, cf !! k = Some (Some u) /\ (u = start \/ (u, got u) ∈ path ++ rest)).
Proof.
  induction fuel as [|fuel IH]; intros cur path p Hgood; simpl; [done|].
  destruct (decide (cur = start)) as [->|Hne].
  - intros [= <-]. exists []. rewrite app_nil_r. simpl.
    assert (E : dict_get path start = None).
    { destruct (dict_get path start) as [v|] eqn:E; [|done].
      destruct Hgood as [_ Hval]. by destruct (Hval start v (dict_get_elem path start v E)). }
    rewrite (dict_set_fresh _ _ _ E). split; [done|]. split; [done|].
    split; [done|]. intros k v Hin. inversion Hin.
  - destruct (cf !! cur) as [[prev|]|] eqn:Ecf; try done. intros Hloop.
    destruct (good_profile_set path cur Hgood Hne) as [Hgood1 Hcase].
    destruct (IH prev _ p Hgood1 Hloop) as (rest & -> & Hg & Hprev & Hclosed).
    destruct Hcase as [[E Hin]|E]; rewrite E in *.
    + exists rest. split; [done|]. split; [done|]. split.
      * intros _. apply elem_of_app. by left.
      * done.
    + exists ((cur, got cur) :: rest).
      rewrite <- !app_assoc in *. simpl in *.
      split; [done|]. split; [done|]. split.
      * intros _. apply elem_of_app. right. left.
      * intros k v Hin. apply elem_of_cons in Hin as [[= -> ->]|Hin];
          [|exact (Hclosed k v Hin)].
        exists prev. split; [done|].
        destruct (decide (prev = start)) as [->|Hps]; [by left | right; auto].
Qed.

End Profile.

Lemma reconstruct_path_shape_aux fuel cf cs start goal p :
  reconstruct_path fuel cf cs start goal = Returned p ->
  last p = Some (start, 0)
  /\ NoDup p.*1
  /\ (goal <> start -> head p = Some (goal, default 0 (cs !! goal)))
  /\ forall k v, (k, v) ∈ p ->
       (k = start /\ v = 0)
       \/ (k <> start /\ v = default 0 (cs !! k)
           /\ exists u vu, cf !! k = Some (Some u) /\ (u, vu) ∈ p).
Proof.
  unfold reconstruct_path. intros H.
  destruct (reconstruct_loop_shape cf cs start fuel goal [] p) as (rest & -> & Hg & Hgoal & Hclosed).
  { split; [constructor|]. intros k v Hin. inversion Hin. }
  { done. }
  simpl in *. destruct Hg as [Hnd Hval].
  assert (Hstart : start ∉ rest.*1).
  { intros Hin. apply list_elem_of_fmap in Hin as ([k v] & -> & Hin).
    by destruct (Hval _ _ Hin). }
  split; [by rewrite last_snoc|]. split.
  { rewrite fmap_app. apply NoDup_app. split; [done|]. split; [|apply NoDup_singleton].
    intros k Hk Hk'. apply list_elem_of_singleton in Hk'. simpl in Hk'. by subst. }
  split.
  { intros Hne. destruct fuel as [|fuel]; [done|]. simpl in H.
    rewrite decide_False in H by done.
    destruct (cf !! goal) as [[prev|]|]; try done.
    destruct (reconstruct_loop_shape cf cs start fuel prev _ _
                (proj1 (good_profile_set cs start [] goal
                   (conj (NoDup_nil_2 : NoDup ([] : list (string * Z)).*1)
                         (fun k v (Hin : (k, v) ∈ []) => match not_elem_of_nil _ Hin with end))
                   Hne)) H)
      as (rest' & E & _).
    simpl in E. by rewrite E. }
  intros k v Hin. apply elem_of_app in Hin as [Hin|Hin].
  - right. destruct (Hval _ _ Hin) as [Hk ->]. split; [done|]. split; [done|].
    destruct (Hclosed _ _ Hin) as (u & Hu & [->|Hu']).
    + exists start, 0. split; [done|]. apply elem_of_app. right. left.
    + exists u, (default 0 (cs !! u)). split; [done|]. apply elem_of_app. by left.
  - apply list_elem_of_singleton in Hin as [= -> ->]. by left.
Qed.

(** Whatever the two maps, a profile returned by [reconstruct_path]
    has distinct cells, ends with [start] at cost 0 and, when the goal
    is not [start], begins with the goal; a cell other than [start]
    carries [cost_so_far.get(cell, 0)], and its predecessor in
    [came_from] is in the profile too. *)
Theorem reconstruct_path_shape fuel cf cs start goal p :
  reconstruct_path fuel cf cs start goal = Returned p ->
  last p = Some (start, 0)
  /\ NoDup p.*1
  /\ (goal <> start -> head p = Some (goal, default 0 (cs !! goal)))
  /\ forall k v, (k, v) ∈ p ->
       (k = start /\ v = 0)
       \/ (k <> start /\ v = default 0 (cs !! k)
           /\ exists u vu, cf !! k = Some (Some u) /\ (u, vu) ∈ p).
Proof. apply reconstruct_path_shape_aux. Qed.

Lemma reconstruct_path_cycle_diverges_aux cf cs start goal (S : string -> Prop) :
  closed_walk cf start S -> S goal ->
  forall fuel, reconstruct_path fuel cf cs start goal = OutOfFuel.
Proof.
  intros Hclosed Hgoal fuel. unfold reconstruct_path.
  generalize ([] : list (string * Z)). revert goal Hgoal.
  induction fuel as [|fuel IH]; intros cur Hcur path; simpl; [done|].
  destruct (Hclosed cur Hcur) as (Hne & u & Hu & HSu).
  rewrite decide_False by done. rewrite Hu. by apply IH.
Qed.

(** When the predecessor links from the goal run for ever among cells
    other than [start], [reconstruct_path] never returns: whatever the
    fuel, the loop is still running when it is spent. *)
Theorem reconstruct_path_cycle_diverges cf cs start goal (S : string -> Prop) :
  closed_walk cf start S -> S goal ->
  forall fuel, reconstruct_path fuel cf cs start goal = OutOfFuel.
Proof. apply reconstruct_path_cycle_diverges_aux. Qed.

(** With [a] at cost -1 the search from [s] to [g] returns maps where
    [a], which has a cost, is its own predecessor: the walk back from
    [a] never reaches [s]. *)
Lemma negative_cost_breaks_reconstruction : ~ every_recorded_cell_reconstructs Toy3.loop.
Proof.
  intros H.
  assert (Hret : dijkstra_search Toy3.loop 100 Toy3.g_neg "s" (Some "g"%string) None
                 = Returned (Toy3.cf_neg, Toy3.cs_neg)) by (vm_compute; reflexivity).
  destruct (H 100%nat Toy3.g_neg "s"%string (Some "g"%string) None Toy3.cf_neg Toy3.cs_neg
              "a"%string 0 Hret eq_refl) as (fuel' & p & Hp & _).
  rewrite (reconstruct_path_cycle_diverges_aux Toy3.cf_neg Toy3.cs_neg "s" "a"
             (fun x => x = "a"%string)) in Hp; [discriminate Hp | | done].
  intros x ->. split; [discriminate|]. exists "a"%string. split; [reflexivity | done].
Qed.

(** On a cost graph without negative costs, the profile reconstructed
    from the maps of a search is a walk of the grid: every cell of it
    other than [start] carries its recorded cost and has in the
    profile a cell of which it is a neighbour, whose cost plus the
    cost of leaving it is at most the cost of the cell. *)
Theorem reconstructed_profile_is_walk hex_range fuel fuel' g start hex_goal distance_goal
    cf cs goal p :
  nonneg_costs g ->
  dijkstra_search hex_range fuel g start hex_goal distance_goal = Returned (cf, cs) ->
  reconstruct_path fuel' cf cs start goal = Returned p ->
  forall k v, (k, v) ∈ p -> k <> start ->
    cs !! k = Some v
    /\ exists u vu, (u, vu) ∈ p /\ k ∈ neighbors hex_range g u /\ vu + cost g u k <= v.
Proof.
  intros Hnn Hret Hp k v Hin Hk.
  destruct (search_returned _ _ _ _ _ _ _ _ Hret) as (c & Hvis & _ & <- & <- & _).
  pose proof (link_inv_visits _ _ _ _ _ c Hvis) as L.
  pose proof (search_inv_visits _ _ _ _ _ Hnn c Hvis) as I.
  destruct (reconstruct_path_shape_aux _ _ _ _ _ _ Hp) as (_ & Hnd & _ & Hall).
  destruct (Hall k v Hin) as [[? _]|(_ & Hv & u & vu & Hu & Hin')]; [done|].
  destruct (li_link _ _ _ _ c L k u Hu) as (Hn & vk & vu' & Hvk & Hvu & Hle & _).
  rewrite Hvk in Hv. simpl in Hv. subst v. split; [done|].
  exists u, vu. split; [done|]. split; [done|].
  destruct (Hall u vu Hin') as [[-> ->]|(_ & -> & _)].
  - pose proof (inv_start _ _ _ _ c I). assert (vu' = 0) by congruence. lia.
  - rewrite Hvu. simpl. lia.
Qed.

(** ** More on the travel-time query *)

Lemma costs_of_cons k v s rows h :
  costs_of (Row k v s :: rows) h
  = if decide (k = h) then v :: costs_of rows h else costs_of rows h.
Proof.
  unfold costs_of. rewrite filter_cons. simpl.
  destruct (decide (k = h)); done.
Qed.

Lemma costs_of_rows (l : list (string * Z)) s h :
  NoDup l.*1 ->
  (forall v, (h, v) ∈ l -> costs_of ((fun kv => Row kv.1 kv.2 s) <$> l) h = [v])
  /\ (h ∉ l.*1 -> costs_of ((fun kv => Row kv.1 kv.2 s) <$> l) h = []).
Proof.
  induction l as [|[k v0] l IH]; intros Hnd.
  - split; [intros v Hin; inversion Hin | done].
  - apply NoDup_cons in Hnd as [Hk Hnd]. destruct (IH Hnd) as [IH1 IH2].
    rewrite fmap_cons. simpl. rewrite costs_of_cons.
    destruct (decide (k = h)) as [->|Hne].
    + split.
      * intros v Hin. apply elem_of_cons in Hin as [[= ->]|Hin].
        -- by rewrite (IH2 Hk).
        -- exfalso. apply Hk. apply list_elem_of_fmap. by exists (h, v).
      * intros Hh. exfalso. apply Hh. left.
    + split.
      * intros v Hin. apply elem_of_cons in Hin as [[= ? ?]|Hin]; [congruence | auto].
      * intros Hh. apply IH2. intros Hin. apply Hh. by right.
Qed.

(** The column of costs selected for [h] in the surface of [cs]. *)
Lemma costs_of_surface cs s h :
  costs_of (surface_frame cs s) h = match cs !! h with Some v => [v] | None => [] end.
Proof.
  unfold surface_frame.
  destruct (costs_of_rows (map_to_list cs) s h (NoDup_fst_map_to_list cs)) as [H1 H2].
  destruct (cs !! h) as [v|] eqn:E.
  - apply H1. by apply elem_of_map_to_list.
  - apply H2. intros Hin. apply list_elem_of_fmap in Hin as ([k v] & -> & Hin).
    apply elem_of_map_to_list in Hin. simpl in *. congruence.
Qed.

Lemma reconstruct_returned_goal fuel cf cs start goal p :
  reconstruct_path fuel cf cs start goal = Returned p ->
  goal = start \/ is_Some (cf !! goal).
Proof.
  unfold reconstruct_path. destruct fuel as [|fuel]; simpl; [done|].
  destruct (decide (goal = start)); [by left|].
  destruct (cf !! goal); [eauto | done].
Qed.

(** The walk of [reconstruct_path] over the maps of a search raises
    nothing once its first cell has a predecessor entry. *)
Lemma reconstruct_loop_no_raise cf cs start fuel e :
  (forall x u, cf !! x = Some (Some u) -> is_Some (cf !! u)) ->
  (forall x, cf !! x = Some None -> x = start) ->
  forall cur path, is_Some (cf !! cur) ->
    reconstruct_loop fuel cf cs start cur path <> Raised e.
Proof.
  intros Hlink Hnone. induction fuel as [|fuel IH]; intros cur path [o Ho]; simpl; [done|].
  destruct (decide (cur = start)) as [->|Hne]; [done|].
  rewrite Ho. destruct o as [prev|].
  - apply IH. by apply (Hlink cur prev).
  - by pose proof (Hnone cur Ho).
Qed.

Lemma reconstruct_raises_key fuel cf cs start cur path e :
  reconstruct_loop fuel cf cs start cur path = Raised e -> e = KeyError.
Proof.
  revert cur path. induction fuel as [|fuel IH]; intros cur path; simpl; [done|].
  destruct (decide (cur = start)); [done|].
  destruct (cf !! cur) as [[prev|]|]; [apply IH | by intros [= <-] | by intros [= <-]].
Qed.

Lemma append_inj_l (d a b : string) : d +:+ a = d +:+ b -> a = b.
Proof. induction d as [|ch d IH]; simpl; [done|]. intros [= H]. auto. Qed.

Lemma iso_lcp_differ DATA_DIR start_hex : iso_file DATA_DIR start_hex <> lcp_file DATA_DIR start_hex.
Proof. unfold iso_file, lcp_file. intros H. apply append_inj_l in H. discriminate H. Qed.

Section MoreQueryFacts.

Variable hex_range : string -> nat -> list string.
Variable coord : Type.
Variable geo_to_h3 : coord -> coord -> Z -> string.
Variable DATA_DIR : string.

Local Abbreviation query := (calculate_travel_time hex_range coord geo_to_h3 DATA_DIR).
Local Abbreviation cell p hex_res := (geo_to_h3 p.1 p.2 hex_res).

(** What a call that returns has done. *)
Lemma query_returned fuel g w start goal distance_goal hex_res r w' :
  query fuel g w start goal distance_goal hex_res = (Returned r, w') ->
  exists cf cs p,
    dijkstra_search hex_range fuel g (cell start hex_res) (Some (cell goal hex_res)) None
      = Returned (cf, cs)
    /\ reconstruct_path fuel cf cs (cell start hex_res) (cell goal hex_res) = Returned p
    /\ cs !! cell goal hex_res = Some r
    /\ w' = World {[ iso_file DATA_DIR (cell start hex_res)
                      := surface_frame cs (cell start hex_res) ]}
                  (<[ lcp_file DATA_DIR (cell start hex_res)
                        := path_frame p (cell start hex_res) ]>
                     (<[ iso_file DATA_DIR (cell start hex_res)
                           := surface_frame cs (cell start hex_res) ]> (files w)))
                  (S (searches w)).
Proof.
  unfold calculate_travel_time. cbv zeta.
  destruct (dijkstra_search _ _ _ _ _ _) as [[cf cs]| |] eqn:Hret; simpl; try done.
  destruct (reconstruct_path _ _ _ _ _) as [p| |] eqn:Hp; simpl; try done.
  rewrite lookup_singleton_eq. simpl. rewrite costs_of_surface.
  destruct (search_returned _ _ _ _ _ _ _ _ Hret) as (c & Hvis & _ & Hcf & Hcs & _).
  destruct (same_keys_visits _ _ _ _ _ _ Hvis) as [Hdom Hstart].
  rewrite Hcf, Hcs in Hdom. rewrite Hcs in Hstart.
  assert (Hgoal : is_Some (cs !! cell goal hex_res)).
  { apply elem_of_dom.
    destruct (reconstruct_returned_goal _ _ _ _ _ _ Hp) as [-> | Hin]; [done|].
    rewrite <- Hdom. by apply elem_of_dom. }
  destruct Hgoal as [v Hv]. rewrite Hv. intros [= <- <-].
  exists cf, cs, p. done.
Qed.

(** The ceiling has no part in a call: not in what it returns or
    raises, not in what it leaves in the cache and on disk.  In
    particular the fallback to the ceiling is never taken. *)
Theorem query_ignores_ceiling fuel g w start goal d1 d2 hex_res :
  query fuel g w start goal d1 hex_res = query fuel g w start goal d2 hex_res.
Proof.
  destruct (query fuel g w start goal d1 hex_res) as [o1 w1] eqn:E1.
  destruct o1 as [r| |].
  - destruct (query_returned _ _ _ _ _ _ _ _ _ E1) as (cf & cs & p & Hret & Hp & Hr & ->).
    unfold calculate_travel_time. cbv zeta. rewrite Hret. simpl. rewrite Hp. simpl.
    rewrite lookup_singleton_eq. simpl. rewrite costs_of_surface, Hr. done.
  - revert E1. unfold calculate_travel_time. cbv zeta.
    destruct (dijkstra_search _ _ _ _ _ _) as [[cf cs]| |]; simpl; [|by intros [= <- <-]|done].
    destruct (reconstruct_path _ _ _ _ _) as [p| |]; simpl; [|by intros [= <- <-]|done].
    rewrite lookup_singleton_eq. simpl. by destruct (costs_of _ _).
  - revert E1. unfold calculate_travel_time. cbv zeta.
    destruct (dijkstra_search _ _ _ _ _ _) as [[cf cs]| |]; simpl; [|done|by intros [= <-]].
    destruct (reconstruct_path _ _ _ _ _) as [p| |]; simpl; [|done|by intros [= <-]].
    rewrite lookup_singleton_eq. simpl. by destruct (costs_of _ _).
Qed.

(** On a cost graph without negative costs, what a call returns is
    the least cost of the paths of the grid from the start cell to
    the goal cell. *)
Theorem query_returns_least_cost fuel g w start goal distance_goal hex_res r w' :
  nonneg_costs g ->
  query fuel g w start goal distance_goal hex_res = (Returned r, w') ->
  least_cost hex_range g (cell start hex_res) (cell goal hex_res) r.
Proof.
  intros Hnn H.
  destruct (query_returned _ _ _ _ _ _ _ _ _ H) as (cf & cs & p & Hret & _ & Hr & _).
  by apply (proj1 (goal_search_exact_aux _ _ _ _ _ _ _ Hnn Hret)).
Qed.

(** A call that returns leaves in the cache one entry, the surface of
    its origin, which is also what the origin's surface file holds; it
    has written the path file, touched no other file, and run the
    search once. *)
Theorem query_effects fuel g w start goal distance_goal hex_res r w' :
  query fuel g w start goal distance_goal hex_res = (Returned r, w') ->
  exists surface,
    temp_df_cache w' = {[ iso_file DATA_DIR (cell start hex_res) := surface ]}
    /\ files w' !! iso_file DATA_DIR (cell start hex_res) = Some surface
    /\ costs_of surface (cell goal hex_res) = [r]
    /\ is_Some (files w' !! lcp_file DATA_DIR (cell start hex_res))
    /\ (forall f, f <> iso_file DATA_DIR (cell start hex_res) ->
          f <> lcp_file DATA_DIR (cell start hex_res) -> files w' !! f = files w !! f)
    /\ searches w' = S (searches w).
Proof.
  intros H.
  destruct (query_returned _ _ _ _ _ _ _ _ _ H) as (cf & cs & p & _ & _ & Hr & ->).
  exists (surface_frame cs (cell start hex_res)). simpl.
  split; [done|]. split.
  { rewrite lookup_insert_ne by (intros E; by apply (iso_lcp_differ DATA_DIR (cell start hex_res))).
    apply lookup_insert_eq. }
  split; [by rewrite costs_of_surface, Hr|].
  split; [rewrite lookup_insert_eq; eauto|].
  split; [|done].
  intros f Hf1 Hf2. by rewrite !lookup_insert_ne.
Qed.

(** A call raises in two cases only: [AssertionError] when the goal
    snaps to the empty identifier, and [KeyError] when the search has
    returned without a cost for the goal cell. *)
Theorem query_raises_only fuel g w start goal distance_goal hex_res e :
  (query fuel g w start goal distance_goal hex_res).1 = Raised e ->
  (e = AssertionError /\ cell goal hex_res = ""%string)
  \/ (e = KeyError /\ exists cf cs,
        dijkstra_search hex_range fuel g (cell start hex_res) (Some (cell goal hex_res)) None
          = Returned (cf, cs)
        /\ cs !! cell goal hex_res = None).
Proof.
  unfold calculate_travel_time. cbv zeta.
  destruct (dijkstra_search _ _ _ _ _ _) as [[cf cs]|e'|] eqn:Hret; simpl; [| |done].
  - destruct (reconstruct_path _ _ _ _ _) as [p|e'|] eqn:Hp; simpl; [| |done].
    + rewrite lookup_singleton_eq. simpl. by destruct (costs_of _ _).
    + intros [= ->]. right. split; [by apply (reconstruct_raises_key _ _ _ _ _ _ _ Hp)|].
      exists cf, cs. split; [done|].
      destruct (search_returned _ _ _ _ _ _ _ _ Hret) as (c & Hvis & _ & Hcf & Hcs & _).
      destruct (same_keys_visits _ _ _ _ _ _ Hvis) as [Hdom _].
      pose proof (link_inv_visits _ _ _ _ _ c Hvis) as L.
      rewrite Hcf, Hcs in Hdom.
      destruct (cs !! cell goal hex_res) as [v|] eqn:Ev; [exfalso|done].
      revert Hp. apply reconstruct_loop_no_raise.
      * intros x u Hx. rewrite <- Hcf in Hx.
        destruct (li_link _ _ _ _ c L x u Hx) as (_ & vx & vu & _ & Hvu & _).
        apply elem_of_dom. rewrite Hdom, <- Hcs. apply elem_of_dom. eauto.
      * intros x Hx. rewrite <- Hcf in Hx. by apply (li_none _ _ _ _ c L).
      * apply elem_of_dom. rewrite Hdom. apply elem_of_dom. eauto.
  - intros [= ->]. left.
    destruct (dijkstra_raises_only_assertion_aux _ _ _ _ _ _ _ Hret) as (-> & Ht & _).
    split; [done|]. simpl in Ht. apply negb_false_iff in Ht. by apply String.eqb_eq.
Qed.

(** A search whose goal is its start returns at once the maps it
    began with. *)
Lemma search_goal_is_start fuel g s distance_goal :
  s <> ""%string ->
  dijkstra_search hex_range (S fuel) g s (Some s) distance_goal
  = Returned ({[ s := None ]}, {[ s := 0 ]}).
Proof.
  intros Hs. unfold dijkstra_search. simpl.
  assert (E : String.eqb s "" = false) by (by apply String.eqb_neq).
  rewrite E. simpl. unfold step. simpl.
  rewrite decide_True by done. simpl.
  by rewrite bool_decide_eq_true_2.
Qed.

(** When start and goal snap to the same cell, a call returns 0 (given
    fuel for one turn of each loop, and a cell identifier that is not
    empty). *)
Theorem query_same_cell_zero fuel g w start goal distance_goal hex_res :
  cell start hex_res = cell goal hex_res ->
  cell goal hex_res <> ""%string ->
  (query (S fuel) g w start goal distance_goal hex_res).1 = Returned 0.
Proof.
  intros E Hne. unfold calculate_travel_time. cbv zeta. rewrite E.
  rewrite (search_goal_is_start fuel g _ None Hne).
  unfold reconstruct_path. simpl. rewrite decide_True by done. simpl.
  rewrite lookup_singleton_eq. simpl.
  rewrite costs_of_surface, lookup_singleton_eq. done.
Qed.

(** Writing a file again with what it holds changes nothing. *)
Lemma files_rewritten (files : gmap string (list row)) iso lcp df pf :
  <[ lcp := pf ]> (<[ iso := df ]> (<[ lcp := pf ]> (<[ iso := df ]> files)))
  = <[ lcp := pf ]> (<[ iso := df ]> files).
Proof.
  apply map_eq. intros f. rewrite !lookup_insert.
  repeat case_decide; done.
Qed.

(** A call made again from the state the first call left, with the
    same arguments, has the same outcome and leaves the cache and the
    files as they were: only the search is run once more. *)
Theorem query_idempotent fuel g w start goal distance_goal hex_res o w1 :
  query fuel g w start goal distance_goal hex_res = (o, w1) ->
  query fuel g w1 start goal distance_goal hex_res
  = (o, World (temp_df_cache w1) (files w1) (S (searches w1))).
Proof.
  unfold calculate_travel_time. cbv zeta.
  destruct (dijkstra_search _ _ _ _ _ _) as [[cf cs]| |]; simpl;
    [| by intros [= <- <-] | by intros [= <- <-]].
  destruct (reconstruct_path _ _ _ _ _) as [p| |]; simpl.
  - rewrite !lookup_singleton_eq. simpl.
    destruct (costs_of _ _); intros [= <- <-]; simpl; by rewrite files_rewritten.
  - intros [= <- <-]. simpl. by rewrite insert_insert_eq.
  - intros [= <- <-]. simpl. by rewrite insert_insert_eq.
Qed.

End MoreQueryFacts.

(** ** The further facts at work on the small inputs *)

Lemma get_pops_least_witness :
  get Toy2.queue = Some ("a"%string, PQ [(3, "b"%string)])
  /\ exists p, elements Toy2.queue ≡ₚ (p, "a"%string) :: [(3, "b"%string)]
       /\ forall e, e ∈ elements Toy2.queue -> p <= e.1.
Proof.
  assert (H : get Toy2.queue = Some ("a"%string, PQ [(3, "b"%string)])) by reflexivity.
  split; [exact H|].
  exact (proj2 (get_pops_least Toy2.queue) "a"%string (PQ [(3, "b"%string)]) H).
Defined.

Lemma put_get_roundtrip_witness :
  (forall e, e ∈ elements (PQ [(3, "b"%string)]) -> 1 < e.1)
  /\ get (put (PQ [(3, "b"%string)]) "a" 1) = Some ("a"%string, PQ [(3, "b"%string)]).
Proof.
  assert (H : forall e, e ∈ elements (PQ [(3, "b"%string)]) -> 1 < e.1).
  { intros e He. simpl in He. apply list_elem_of_singleton in He. subst e. simpl. lia. }
  split; [exact H|].
  exact (put_get_roundtrip (PQ [(3, "b"%string)]) "a" 1 H).
Defined.

Lemma dijkstra_raises_only_assertion_witness :
  dijkstra_search Toy.line 100 Toy.g "a" None None = Raised AssertionError
  /\ AssertionError = AssertionError /\ truthy_str None = false /\ truthy_num None = false.
Proof.
  assert (H : dijkstra_search Toy.line 100 Toy.g "a" None None = Raised AssertionError)
    by reflexivity.
  split; [exact H|].
  exact (dijkstra_raises_only_assertion Toy.line 100 Toy.g "a" None None AssertionError H).
Defined.

Lemma costs_never_increase_witness :
  visits Toy.line Toy.g "a" (Some "d"%string) None (init_config "a")
  /\ cost_so_far (init_config "a") !! "a"%string = Some 0
  /\ exists v', Toy.cs_line !! "a"%string = Some v' /\ v' <= 0.
Proof.
  assert (H1 : visits Toy.line Toy.g "a" (Some "d"%string) None (init_config "a"))
    by (by exists O).
  assert (H2 : cost_so_far (init_config "a") !! "a"%string = Some 0) by reflexivity.
  assert (H3 : dijkstra_search Toy.line 100 Toy.g "a" (Some "d"%string) None
               = Returned (Toy.cf_line, Toy.cs_line)) by (vm_compute; reflexivity).
  split; [exact H1|]. split; [exact H2|].
  exact (proj2 (costs_never_increase Toy.line 100 Toy.g "a" (Some "d"%string) None
                  (init_config "a") "a" 0 H1 H2) Toy.cf_line Toy.cs_line H3).
Defined.

Lemma recorded_cost_is_path_cost_witness :
  dijkstra_search Toy.line 100 Toy.g "a" (Some "d"%string) None
    = Returned (Toy.cf_line, Toy.cs_line)
  /\ Toy.cs_line !! "d"%string = Some 13
  /\ path Toy.line Toy.g "a" "d" 13.
Proof.
  assert (H1 : dijkstra_search Toy.line 100 Toy.g "a" (Some "d"%string) None
               = Returned (Toy.cf_line, Toy.cs_line)) by (vm_compute; reflexivity).
  assert (H2 : Toy.cs_line !! "d"%string = Some 13) by reflexivity.
  split; [exact H1|]. split; [exact H2|].
  exact (recorded_cost_is_path_cost Toy.line 100 Toy.g "a" (Some "d"%string) None
           Toy.cf_line Toy.cs_line "d" 13 H1 H2).
Defined.

Lemma predecessor_links_witness :
  dijkstra_search Toy.line 100 Toy.g "a" (Some "d"%string) None
    = Returned (Toy.cf_line, Toy.cs_line)
  /\ Toy.cf_line !! "d"%string = Some (Some "c"%string)
  /\ "d"%string ∈ neighbors Toy.line Toy.g "c"
  /\ exists vx vu, Toy.cs_line !! "d"%string = Some vx /\ Toy.cs_line !! "c"%string = Some vu
       /\ vu + cost Toy.g "c" "d" <= vx
       /\ (pruned None vu = false \/ "c"%string = "a"%string).
Proof.
  assert (H1 : dijkstra_search Toy.line 100 Toy.g "a" (Some "d"%string) None
               = Returned (Toy.cf_line, Toy.cs_line)) by (vm_compute; reflexivity).
  assert (H2 : Toy.cf_line !! "d"%string = Some (Some "c"%string)) by reflexivity.
  split; [exact H1|]. split; [exact H2|].
  exact (proj1 (predecessor_links Toy.line 100 Toy.g "a" (Some "d"%string) None
                  Toy.cf_line Toy.cs_line H1) "d"%string "c"%string H2).
Defined.

Lemma goal_search_exact_witness :
  nonneg_costs Toy.g
  /\ dijkstra_search Toy.line 100 Toy.g "a" (Some "d"%string) None
     = Returned (Toy.cf_line, Toy.cs_line)
  /\ Toy.cs_line !! "d"%string = Some 13
  /\ least_cost Toy.line Toy.g "a" "d" 13.
Proof.
  assert (H0 : nonneg_costs Toy.g).
  { apply (bool_decide_unpack _). vm_compute. reflexivity. }
  assert (H1 : dijkstra_search Toy.line 100 Toy.g "a" (Some "d"%string) None
               = Returned (Toy.cf_line, Toy.cs_line)) by (vm_compute; reflexivity).
  assert (H2 : Toy.cs_line !! "d"%string = Some 13) by reflexivity.
  split; [exact H0|]. split; [exact H1|]. split; [exact H2|].
  exact (proj1 (goal_search_exact Toy.line 100 Toy.g "a" "d" Toy.cf_line Toy.cs_line H0 H1)
           13 H2).
Defined.

Lemma isochrone_exact_witness :
  nonneg_costs Toy.g
  /\ dijkstra_search Toy.line 100 Toy.g "a" None (Some 6) = Returned (Toy2.cf_iso, Toy2.cs_iso)
  /\ path Toy.line Toy.g "a" "b" (0 + cost Toy.g "a" "b")
  /\ 0 + cost Toy.g "a" "b" < 6
  /\ exists v, Toy2.cs_iso !! "b"%string = Some v /\ v <= 0 + cost Toy.g "a" "b"
       /\ least_cost Toy.line Toy.g "a" "b" v.
Proof.
  assert (H0 : nonneg_costs Toy.g).
  { apply (bool_decide_unpack _). vm_compute. reflexivity. }
  assert (H1 : dijkstra_search Toy.line 100 Toy.g "a" None (Some 6)
               = Returned (Toy2.cf_iso, Toy2.cs_iso)) by (vm_compute; reflexivity).
  assert (H2 : path Toy.line Toy.g "a" "b" (0 + cost Toy.g "a" "b")).
  { apply path_snoc; [apply path_nil|]. right. left. }
  assert (H3 : 0 + cost Toy.g "a" "b" < 6) by (vm_compute; reflexivity).
  split; [exact H0|]. split; [exact H1|]. split; [exact H2|]. split; [exact H3|].
  exact (isochrone_exact Toy.line 100 Toy.g "a" 6 Toy2.cf_iso Toy2.cs_iso "b" _ H0 H1 H2 H3).
Defined.

Lemma reconstruct_path_shape_witness :
  reconstruct_path 10 Toy.cf_line Toy.cs_line "a" "d"
    = Returned [("d"%string, 13); ("c"%string, 12); ("b"%string, 5); ("a"%string, 0)]
  /\ last [("d"%string, 13); ("c"%string, 12); ("b"%string, 5); ("a"%string, 0)]
     = Some ("a"%string, 0)
  /\ NoDup [("d"%string, 13); ("c"%string, 12); ("b"%string, 5); ("a"%string, 0)].*1.
Proof.
  assert (H : reconstruct_path 10 Toy.cf_line Toy.cs_line "a" "d"
    = Returned [("d"%string, 13); ("c"%string, 12); ("b"%string, 5); ("a"%string, 0)])
    by (vm_compute; reflexivity).
  split; [exact H|].
  pose proof (reconstruct_path_shape 10 Toy.cf_line Toy.cs_line "a" "d" _ H) as (H1 & H2 & _).
  exact (conj H1 H2).
Defined.

Lemma reconstruct_path_cycle_diverges_witness :
  closed_walk Toy2.cf_cycle "a" Toy2.on_cycle /\ Toy2.on_cycle "b"
  /\ forall fuel, reconstruct_path fuel Toy2.cf_cycle ∅ "a" "b" = OutOfFuel.
Proof.
  assert (H1 : closed_walk Toy2.cf_cycle "a" Toy2.on_cycle).
  { intros x [->| ->]; (split; [discriminate|]).
    - exists "c"%string. split; [reflexivity | by right].
    - exists "b"%string. split; [reflexivity | by left]. }
  assert (H2 : Toy2.on_cycle "b") by (by left).
  split; [exact H1|]. split; [exact H2|].
  exact (reconstruct_path_cycle_diverges Toy2.cf_cycle ∅ "a" "b" Toy2.on_cycle H1 H2).
Defined.

Lemma reconstructed_profile_is_walk_witness :
  nonneg_costs Toy.g
  /\ dijkstra_search Toy.line 100 Toy.g "a" (Some "d"%string) None
     = Returned (Toy.cf_line, Toy.cs_line)
  /\ reconstruct_path 10 Toy.cf_line Toy.cs_line "a" "d"
     = Returned [("d"%string, 13); ("c"%string, 12); ("b"%string, 5); ("a"%string, 0)]
  /\ Toy.cs_line !! "c"%string = Some 12
  /\ exists u vu,
       (u, vu) ∈ [("d"%string, 13); ("c"%string, 12); ("b"%string, 5); ("a"%string, 0)]
       /\ "c"%string ∈ neighbors Toy.line Toy.g u /\ vu + cost Toy.g u "c" <= 12.
Proof.
  assert (H0 : nonneg_costs Toy.g).
  { apply (bool_decide_unpack _). vm_compute. reflexivity. }
  assert (H1 : dijkstra_search Toy.line 100 Toy.g "a" (Some "d"%string) None
               = Returned (Toy.cf_line, Toy.cs_line)) by (vm_compute; reflexivity).
  assert (H2 : reconstruct_path 10 Toy.cf_line Toy.cs_line "a" "d"
    = Returned [("d"%string, 13); ("c"%string, 12); ("b"%string, 5); ("a"%string, 0)])
    by (vm_compute; reflexivity).
  split; [exact H0|]. split; [exact H1|]. split; [exact H2|].
  apply (reconstructed_profile_is_walk Toy.line 100 10 Toy.g "a" (Some "d"%string) None
           Toy.cf_line Toy.cs_line "d" _ H0 H1 H2 "c"%string 12).
  - right. left.
  - discriminate.
Defined.

Lemma query_returns_least_cost_witness :
  nonneg_costs Toy.g1
  /\ calculate_travel_time Toy.line string Toy.snap "data" 100 Toy.g1 Toy.w0
       ("a", "") ("d", "") 3000 6
     = (Returned 3,
        (calculate_travel_time Toy.line string Toy.snap "data" 100 Toy.g1 Toy.w0
           ("a", "") ("d", "") 3000 6).2)
  /\ least_cost Toy.line Toy.g1 "a" "d" 3.
Proof.
  assert (H0 : nonneg_costs Toy.g1).
  { apply (bool_decide_unpack _). vm_compute. reflexivity. }
  assert (H1 : calculate_travel_time Toy.line string Toy.snap "data" 100 Toy.g1 Toy.w0
                 ("a", "") ("d", "") 3000 6
               = (Returned 3,
                  (calculate_travel_time Toy.line string Toy.snap "data" 100 Toy.g1 Toy.w0
                     ("a", "") ("d", "") 3000 6).2)) by (vm_compute; reflexivity).
  split; [exact H0|]. split; [exact H1|].
  exact (query_returns_least_cost Toy.line string Toy.snap "data" 100 Toy.g1 Toy.w0
           ("a", "") ("d", "") 3000 6 3 _ H0 H1).
Defined.

Lemma query_effects_witness :
  calculate_travel_time Toy.line string Toy.snap "data" 100 Toy.g1 Toy.w0
    ("a", "") ("d", "") 3000 6
  = (Returned 3,
     (calculate_travel_time Toy.line string Toy.snap "data" 100 Toy.g1 Toy.w0
        ("a", "") ("d", "") 3000 6).2)
  /\ exists surface,
       temp_df_cache (calculate_travel_time Toy.line string Toy.snap "data" 100 Toy.g1 Toy.w0
                        ("a", "") ("d", "") 3000 6).2
       = {[ iso_file "data" "a" := surface ]}
       /\ costs_of surface "d" = [3].
Proof.
  assert (H1 : calculate_travel_time Toy.line string Toy.snap "data" 100 Toy.g1 Toy.w0
                 ("a", "") ("d", "") 3000 6
               = (Returned 3,
                  (calculate_travel_time Toy.line string Toy.snap "data" 100 Toy.g1 Toy.w0
                     ("a", "") ("d", "") 3000 6).2)) by (vm_compute; reflexivity).
  split; [exact H1|].
  destruct (query_effects Toy.line string Toy.snap "data" 100 Toy.g1 Toy.w0
              ("a", "") ("d", "") 3000 6 3 _ H1) as (surface & Hc & _ & Hd & _).
  exists surface. exact (conj Hc Hd).
Defined.

Lemma query_raises_only_witness :
  (calculate_travel_time Toy.isolated string Toy.snap "data" 100 Toy.g1 Toy.w0
     ("a", "") ("d", "") 1 6).1 = Raised KeyError
  /\ ((KeyError = AssertionError /\ Toy.snap "d" "" 6 = ""%string)
      \/ (KeyError = KeyError /\ exists cf cs,
            dijkstra_search Toy.isolated 100 Toy.g1 (Toy.snap "a" "" 6)
              (Some (Toy.snap "d" "" 6)) None = Returned (cf, cs)
            /\ cs !! Toy.snap "d" "" 6 = None)).
Proof.
  assert (H : (calculate_travel_time Toy.isolated string Toy.snap "data" 100 Toy.g1 Toy.w0
                 ("a", "") ("d", "") 1 6).1 = Raised KeyError) by (vm_compute; reflexivity).
  split; [exact H|].
  exact (query_raises_only Toy.isolated string Toy.snap "data" 100 Toy.g1 Toy.w0
           ("a", "") ("d", "") 1 6 KeyError H).
Defined.

Lemma query_same_cell_zero_witness :
  Toy.snap "a" "x" 6 = Toy.snap "a" "y" 6
  /\ Toy.snap "a" "y" 6 <> ""%string
  /\ (calculate_travel_time Toy.line string Toy.snap "data" 1 Toy.g1 Toy.w0
        ("a", "x") ("a", "y") 3000 6).1 = Returned 0.
Proof.
  assert (H1 : Toy.snap "a" "x" 6 = Toy.snap "a" "y" 6) by reflexivity.
  assert (H2 : Toy.snap "a" "y" 6 <> ""%string) by discriminate.
  split; [exact H1|]. split; [exact H2|].
  exact (query_same_cell_zero Toy.line string Toy.snap "data" 0 Toy.g1 Toy.w0
           ("a", "x") ("a", "y") 3000 6 H1 H2).
Defined.

Lemma query_idempotent_witness :
  calculate_travel_time Toy.line string Toy.snap "data" 100 Toy.g1 Toy.w0
    ("a", "") ("d", "") 3000 6
  = (Returned 3,
     (calculate_travel_time Toy.line string Toy.snap "data" 100 Toy.g1 Toy.w0
        ("a", "") ("d", "") 3000 6).2)
  /\ (calculate_travel_time Toy.line string Toy.snap "data" 100 Toy.g1
        (calculate_travel_time Toy.line string Toy.snap "data" 100 Toy.g1 Toy.w0
           ("a", "") ("d", "") 3000 6).2
        ("a", "") ("d", "") 3000 6).1 = Returned 3.
Proof.
  assert (H1 : calculate_travel_time Toy.line string Toy.snap "data" 100 Toy.g1 Toy.w0
                 ("a", "") ("d", "") 3000 6
               = (Returned 3,
                  (calculate_travel_time Toy.line string Toy.snap "data" 100 Toy.g1 Toy.w0
                     ("a", "") ("d", "") 3000 6).2)) by (vm_compute; reflexivity).
  split; [exact H1|].
  exact (f_equal fst
           (query_idempotent Toy.line string Toy.snap "data" 100 Toy.g1 Toy.w0
              ("a", "") ("d", "") 3000 6 _ _ H1)).
Defined.
